(** * ScrollLend client layer: contract adapter and health-factor observer

    A shallow embedding of [EthersLendingBorrowingContract] (the contract
    adapter) and of the [useHealthFactor] hook, with the properties of the
    natural-language specification stated and settled over it.

    Definitions:
    - [JS]: the fragment of ECMAScript values the code computes with
      (strings as character lists, [bigint] as [Z], integer-valued
      [number]s with binary64 rounding, completions);
    - [Ethers]: [parseUnits] and [formatUnits] of ethers v6, which the
      adapter imports, after the library's [FixedNumber];
    - [Adapter]: the class, one definition per method, over an explicit
      world (state of the chain, trace of the requests issued, console);
    - [Observer]: the hook as a transition system over renders and
      promise settlements;
    - [Mock]: test doubles for the contract;
    - [Decimal], [Spec]: the vocabulary of the statements.

    Theorems:
    - [DigitFacts], [EthersFacts]: decimal digits and the two
      conversions, up to the round trips;
    - [Conversion]: the conversions at the adapter's boundary;
    - [AdapterSpec]: the adapter's methods;
    - [ObserverSpec]: the runs of the observer. *)

From Stdlib Require Import ZArith Ascii String List Bool Lia.
Import ListNotations.

Local Open Scope Z_scope.

(* ===================================================================== *)
(** ** ECMAScript values *)
(* ===================================================================== *)

Module JS.

(** A thrown value.  Every error raised by ethers carries a [code]
    ("INVALID_ARGUMENT", "NUMERIC_FAULT", "CALL_EXCEPTION", ...) and a
    message; other thrown values are given the code of their class. *)
Record exn : Type := mkExn { code : string; message : string }.

(** A completion: the evaluation returns a value or throws.  For an
    [async] function, [Normal v] is a promise fulfilled with [v] and
    [Throw e] a promise rejected with [e]. *)
Inductive completion (A : Type) : Type :=
| Normal (a : A)
| Throw (e : exn).
Arguments Normal {A} a.
Arguments Throw {A} e.

Definition chars := list ascii.

Definition is_digit (c : ascii) : bool :=
  ((48 <=? nat_of_ascii c) && (nat_of_ascii c <=? 57))%nat.

Definition is_zero (c : ascii) : bool := Ascii.eqb c "0".

Definition digit_val (c : ascii) : Z := Z.of_nat (nat_of_ascii c) - 48.

Definition digit_char (d : Z) : ascii := ascii_of_nat (Z.to_nat d + 48).

(** The mathematical value of a run of decimal digits, most significant
    first. *)
Definition digits_value (s : chars) : Z :=
  fold_left (fun acc c => 10 * acc + digit_val c) s 0.

(** [StringToBigInt] on the decimal fragment: an optional sign and a
    non-empty run of digits, or the empty string (which is [0n]).
    [None] is the [SyntaxError] of [BigInt(s)]. *)
Definition StringToBigInt (s : chars) : option Z :=
  match s with
  | [] => Some 0
  | c :: r =>
      let '(neg, ds) :=
        if Ascii.eqb c "-" then (true, r)
        else if Ascii.eqb c "+" then (false, r)
        else (false, s) in
      match ds with
      | [] => None
      | _ :: _ =>
          if forallb is_digit ds
          then Some (if neg then - digits_value ds else digits_value ds)
          else None
      end
  end.

(** The decimal digits of a non-negative integer, by repeated division;
    [fuel] bounds the number of digits. *)
Fixpoint digits_loop (fuel : nat) (n : Z) (acc : chars) : chars :=
  match fuel with
  | O => acc
  | S fuel' =>
      let acc' := digit_char (n mod 10) :: acc in
      if n <? 10 then acc' else digits_loop fuel' (n / 10) acc'
  end.

Definition digits_of (n : Z) : chars :=
  digits_loop (S (Z.to_nat (Z.log2 n))) n [].

(** [BigInt.prototype.toString()], radix 10. *)
Definition bigint_toString (v : Z) : chars :=
  if v <? 0 then "-"%char :: digits_of (- v) else digits_of v.

(** Numbers.  The code only ever builds integer-valued numbers, so a
    finite number is kept as the integer it denotes; what separates it
    from [bigint] is the rounding to 53 significant bits. *)
Inductive number : Type :=
| Finite (z : Z)
| Infinity (negative : bool)
| NaN.

(** Round a non-negative integer to the nearest binary64 value, ties to
    even. *)
Definition round_binary64 (n : Z) : Z :=
  let e := Z.log2 n - 52 in
  if e <=? 0 then n
  else
    let q := n / 2 ^ e in
    let r := n mod 2 ^ e in
    let half := 2 ^ (e - 1) in
    let q' :=
      if r <? half then q
      else if half <? r then q + 1
      else if Z.even q then q else q + 1 in
    q' * 2 ^ e.

Definition to_number (z : Z) : number :=
  let m := round_binary64 (Z.abs z) in
  if 2 ^ 1024 <=? m then Infinity (z <? 0)
  else Finite (if z <? 0 then - m else m).

(** [Number(v)] for a bigint [v]. *)
Definition Number_of_bigint (v : Z) : number := to_number v.

(** [Number(s)] for a string, on signed decimal integer literals; any
    other string is outside the fragment and given [NaN]. *)
Definition Number_of_string (s : chars) : number :=
  match StringToBigInt s with
  | Some z => to_number z
  | None => NaN
  end.

(** The [*] operator on numbers. *)
Definition number_mul (a b : number) : number :=
  match a, b with
  | Finite x, Finite y => to_number (x * y)
  | Finite x, Infinity s | Infinity s, Finite x =>
      if x =? 0 then NaN else Infinity (xorb s (x <? 0))
  | Infinity s, Infinity t => Infinity (xorb s t)
  | NaN, _ | _, NaN => NaN
  end.

End JS.

(* ===================================================================== *)
(** ** ethers v6: [parseUnits] and [formatUnits] *)
(* ===================================================================== *)

(** The adapter imports [parseUnits] and [formatUnits] from the ethers
    package, version 6 (the version that exports [BrowserProvider] and
    [JsonRpcApiProvider], which the adapter imports too).  The package is
    a dependency, not a file of the repository; the definitions below
    follow its [FixedNumber]: [parseUnits(value, 18)] is
    [FixedNumber.fromString(value, { decimals: 18, width: 512 }).value] and
    [formatUnits(value, 18)] is
    [FixedNumber.fromValue(value, 18, { decimals: 18, width: 512 })
    .toString()]. *)
Module Ethers.
Import JS.

Definition INVALID_ARGUMENT (msg : string) : exn := mkExn "INVALID_ARGUMENT" msg.
Definition NUMERIC_FAULT (msg : string) : exn := mkExn "NUMERIC_FAULT" msg.

(** [while (Zeros.length < 80) { Zeros += Zeros; }] *)
Fixpoint grow (fuel : nat) (z : chars) (n : nat) : chars :=
  match fuel with
  | O => z
  | S fuel' => if (length z <? n)%nat then grow fuel' (z ++ z) n else z
  end.

(** [let Zeros = "0000";] grown by the loop above: 128 zeros. *)
Definition Zeros : chars := grow 80 ["0"; "0"; "0"; "0"]%char 80.

(** [getFormat]: the width is a number of bytes and there are at most 80
    decimals. *)
Definition format_ok (decimals : nat) (width : Z) : bool :=
  (width mod 8 =? 0) && (decimals <=? 80)%nat.

Definition bad_format : exn :=
  INVALID_ARGUMENT "invalid FixedNumber format".

(** The longest prefix of digits, and what follows it. *)
Fixpoint span_digits (s : chars) : chars * chars :=
  match s with
  | c :: r =>
      if is_digit c
      then let '(ds, rest) := span_digits r in (c :: ds, rest)
      else ([], s)
  | [] => ([], [])
  end.

(** An optional leading minus sign, and what follows it. *)
Definition split_sign (s : chars) : chars * chars :=
  match s with
  | c :: r' => if Ascii.eqb c "-" then (["-"%char], r') else ([], s)
  | [] => ([], [])
  end.

(** An optional leading dot dropped. *)
Definition skip_dot (s : chars) : chars :=
  match s with
  | c :: r' => if Ascii.eqb c "." then r' else s
  | [] => []
  end.

(** The match of [_value] against the pattern of [fromString]: an
    optional minus sign (group 1), a greedy run of digits (group 2), an
    optional dot, a greedy run of digits (group 3), then the end of the
    input.  The three groups, or [None] when the string does not match.
    Giving back digits of group 2 never helps to reach the end of the
    input, so the greedy split is the match. *)
Definition match_fixed (s : chars) : option (chars * chars * chars) :=
  let '(sign, r) := split_sign s in
  let '(whole, r1) := span_digits r in
  let r2 := skip_dot r1 in
  if forallb is_digit r2 then Some (sign, whole, r2) else None.

(** [while (decimal.length < format.decimals) { decimal += Zeros; }] *)
Fixpoint pad_end (fuel : nat) (decimal : chars) (decimals : nat) : chars :=
  match fuel with
  | O => decimal
  | S fuel' =>
      if (length decimal <? decimals)%nat
      then pad_end fuel' (decimal ++ Zeros) decimals
      else decimal
  end.

(** [while (str.length <= decimals) { str = Zeros + str; }] *)
Fixpoint pad_start (fuel : nat) (str : chars) (decimals : nat) : chars :=
  match fuel with
  | O => str
  | S fuel' =>
      if (length str <=? decimals)%nat
      then pad_start fuel' (Zeros ++ str) decimals
      else str
  end.

(** The signed format of the given width holds [val]:
    [val >= -limit && val < limit] with [limit = 1n << (width - 1n)]. *)
Definition in_range (width : Z) (val : Z) : bool :=
  (- 2 ^ (width - 1) <=? val) && (val <? 2 ^ (width - 1)).

(** [FixedNumber.fromString(_value, { decimals, width }).value] *)
Definition fromString (value : string) (decimals : nat) (width : Z)
  : completion Z :=
  match match_fixed (list_ascii_of_string value) with
  | None => Throw (INVALID_ARGUMENT "invalid FixedNumber string value")
  | Some (sign, m2, m3) =>
      if (length m2 + length m3 =? 0)%nat
      then Throw (INVALID_ARGUMENT "invalid FixedNumber string value")
      else if negb (format_ok decimals width) then Throw bad_format
      else
        let whole := match m2 with [] => ["0"%char] | _ => m2 end in
        let decimal := pad_end decimals m3 decimals in
        if forallb is_zero (skipn decimals decimal)
        then
          let decimal := firstn decimals decimal in
          match StringToBigInt (sign ++ whole ++ decimal) with
          | Some v =>
              if in_range width v then Normal v
              else Throw (NUMERIC_FAULT "overflow")
          | None => Throw (mkExn "SyntaxError" "Cannot convert to a BigInt")
          end
        else Throw (NUMERIC_FAULT "too many decimals for format")
  end.

(** [parseUnits(value, unit)] with a numeric [unit]. *)
Definition parseUnits (value : string) (unit : nat) : completion Z :=
  fromString value unit 512.

(** [while (str[0] === "0" && str[1] !== ".") { str = str.substring(1); }] *)
Fixpoint trim_start (str : chars) : chars :=
  match str with
  | c0 :: r =>
      if is_zero c0
         && negb (match r with c1 :: _ => Ascii.eqb c1 "." | [] => false end)
      then trim_start r
      else str
  | [] => []
  end.

(** [while (str[str.length - 1] === "0" && str[str.length - 2] !== ".")
      { str = str.substring(0, str.length - 1); }]
    the same loop read from the other end of the string. *)
Definition trim_end (str : chars) : chars := rev (trim_start (rev str)).

(** [function toString(val, decimals)] of [FixedNumber]. *)
Definition toString (val : Z) (decimals : nat) : chars :=
  let negative := if val <? 0 then ["-"%char] else [] in
  let val := if val <? 0 then val * -1 else val in
  let str := bigint_toString val in
  if (decimals =? 0)%nat then negative ++ str
  else
    let str := pad_start (S decimals) str decimals in
    let index := (length str - decimals)%nat in
    let str := firstn index str ++ "."%char :: skipn index str in
    let str := trim_start str in
    let str := trim_end str in
    negative ++ str.

(** [FixedNumber.fromValue(value, decimals, { decimals, width })
      .toString()] *)
Definition fromValue_toString (value : Z) (decimals : nat) (width : Z)
  : completion string :=
  if negb (format_ok decimals width) then Throw bad_format
  else if in_range width value
  then Normal (string_of_list_ascii (toString value decimals))
  else Throw (NUMERIC_FAULT "overflow").

(** [formatUnits(value, unit)] with a numeric [unit]. *)
Definition formatUnits (value : Z) (unit : nat) : completion string :=
  fromValue_toString value unit 512.

Arguments parseUnits : simpl never.
Arguments formatUnits : simpl never.

End Ethers.

(* ===================================================================== *)
(** ** The contract adapter *)
(* ===================================================================== *)

Module Adapter.
Import JS Ethers.

(** An argument handed to a contract method. *)
Inductive arg : Type :=
| AStr (s : string)
| ABig (v : Z)
| ANum (n : number).

(** [toBlock: number | string] *)
Inductive blockTag : Type :=
| BlockNumber (n : number)
| BlockName (s : string).

(** What [this.contract.liquidityPool(user, token)] resolves with. *)
Record pool : Type := mkPool { p_amount : Z; p_withdrawalTime : Z; p_addedAt : Z }.

(** The [args] of a parsed log, as the code reads them. *)
Record logArgs : Type :=
  mkArgs { a_user : string; a_token : string; a_amount : Z; a_timeStamp : Z }.

(** [Events], the record [queryFilterEventByAccount] builds. *)
Record Events : Type :=
  mkEvents { user : string; token : string; amount : string;
             timeStamp : number; eventName : string }.

(** The return type of [getLiquidityPool]. *)
Record liquidity : Type :=
  mkLiquidity { l_amount : string; l_withdrawalTime : number; l_addedAt : number }.

(** A request that leaves the adapter.  The trace of a world pairs each
    request with the fault it met, if any. *)
Inductive request (tx filter : Type) : Type :=
| ReqCall (method : string) (args : list arg)
| ReqWait (t : tx)
| ReqQueryFilter (f : filter) (fromBlock : number) (toBlock : blockTag)
| ReqBlockNumber.
Arguments ReqCall {tx filter} method args.
Arguments ReqWait {tx filter} t.
Arguments ReqQueryFilter {tx filter} f fromBlock toBlock.
Arguments ReqBlockNumber {tx filter}.

Inductive consoleLevel : Type := LevelLog | LevelWarn | LevelError.

(** The two contract handles and the provider behind them: everything the
    adapter does not compute itself.  [chain] is the state of the world
    outside the adapter; each entry is one round trip, which may change
    that state and may fail.  The result type of a method is the one the
    adapter's code relies on. *)
Record Backend (chain tx filter log : Type) : Type := mkBackend {
  (** a method whose result goes through [formatUnits] *)
  call_uint : string -> list arg -> chain -> completion Z * chain;
  (** a method whose result is awaited with [tx.wait()] *)
  call_tx : string -> list arg -> chain -> completion tx * chain;
  wait : tx -> chain -> completion unit * chain;
  (** a method whose result is dropped ([checkForBrokenHealthFactor]) *)
  call_void : string -> list arg -> chain -> completion unit * chain;
  call_pool : string -> list arg -> chain -> completion pool * chain;
  call_string : string -> list arg -> chain -> completion string * chain;
  (** [contractJsonRPC.filters[eventName](account)] *)
  filters : string -> string -> completion filter;
  queryFilter : filter -> number -> blockTag -> chain
                -> completion (list log) * chain;
  (** [contractJsonRPC.interface.parseLog(log)]; [None] is [null] *)
  parseLog : log -> completion (option logArgs);
  getBlockNumber : chain -> completion number * chain
}.
Arguments call_uint {chain tx filter log} _.
Arguments call_tx {chain tx filter log} _.
Arguments wait {chain tx filter log} _.
Arguments call_void {chain tx filter log} _.
Arguments call_pool {chain tx filter log} _.
Arguments call_string {chain tx filter log} _.
Arguments filters {chain tx filter log} _.
Arguments queryFilter {chain tx filter log} _.
Arguments parseLog {chain tx filter log} _.
Arguments getBlockNumber {chain tx filter log} _.

Section Class.
Context {chain tx filter log : Type}.
Variable backend : Backend chain tx filter log.

(** The world an adapter method runs in. *)
Record world : Type := mkWorld {
  w_chain : chain;
  w_trace : list (request tx filter * option exn);
  w_console : list (consoleLevel * string)
}.

Definition M (A : Type) : Type := world -> completion A * world.

Definition ret {A} (a : A) : M A := fun w => (Normal a, w).

Definition bind {A B} (m : M A) (k : A -> M B) : M B :=
  fun w =>
    match m w with
    | (Normal a, w') => k a w'
    | (Throw e, w') => (Throw e, w')
    end.

(** [try { m } catch (error) { h error }] *)
Definition try_catch {A} (m : M A) (h : exn -> M A) : M A :=
  fun w =>
    match m w with
    | (Normal a, w') => (Normal a, w')
    | (Throw e, w') => h e w'
    end.

(** A computation of the adapter's own: no round trip. *)
Definition eval {A} (c : completion A) : M A := fun w => (c, w).

Definition fault {A} (c : completion A) : option exn :=
  match c with Normal _ => None | Throw e => Some e end.

(** One round trip: ask the backend, record the request. *)
Definition perform {A} (r : request tx filter)
    (f : chain -> completion A * chain) : M A :=
  fun w =>
    let '(c, st) := f (w_chain w) in
    (c, mkWorld st (w_trace w ++ [(r, fault c)]) (w_console w)).

Definition console (lvl : consoleLevel) (msg : string) : M unit :=
  fun w => (Normal tt,
            mkWorld (w_chain w) (w_trace w) (w_console w ++ [(lvl, msg)])).

Notation "x <- m ;; k" := (bind m (fun x => k))
  (at level 61, m at next level, right associativity).
Notation "m ;;; k" := (bind m (fun _ => k))
  (at level 61, right associativity).

Definition view (method : string) (args : list arg) : M Z :=
  perform (ReqCall method args) (call_uint backend method args).

Definition send (method : string) (args : list arg) : M tx :=
  perform (ReqCall method args) (call_tx backend method args).

Definition tx_wait (t : tx) : M unit :=
  perform (ReqWait t) (wait backend t).

Definition getAssetValueInUSD (token amount : string) : M string :=
  a <- eval (parseUnits amount 18) ;;
  valueInUSD <- view "getAssetValueInUSD" [AStr token; ABig a] ;;
  eval (formatUnits valueInUSD 18).

Definition collateralDeposited (user token : string) : M string :=
  amount <- view "collateralDeposited" [AStr user; AStr token] ;;
  eval (formatUnits amount 18).

Definition depositCollateral (token amount : string) : M unit :=
  a <- eval (parseUnits amount 18) ;;
  t <- send "depositCollateral" [AStr token; ABig a] ;;
  tx_wait t.

Definition borrowAsset (token amount : string) (repaymentTimestamp : number)
  : M unit :=
  a <- eval (parseUnits amount 18) ;;
  t <- send "borrowAsset" [AStr token; ABig a; ANum repaymentTimestamp] ;;
  tx_wait t.

Definition withdrawCollateralDeposited (token : string) : M unit :=
  t <- send "withdrawCollateralDeposited" [AStr token] ;;
  tx_wait t.

Definition repayLoan (token amount : string) : M unit :=
  a <- eval (parseUnits amount 18) ;;
  t <- send "repayLoan" [AStr token; ABig a] ;;
  tx_wait t.

Definition liquidatePosition
    (userToLiquidate borrowedAsset collateralAsset amount : string) : M unit :=
  a <- eval (parseUnits amount 18) ;;
  t <- send "liquidatePosition"
         [AStr userToLiquidate; AStr borrowedAsset; AStr collateralAsset; ABig a] ;;
  tx_wait t.

Definition getUserTotalBorrowed (user : string) : M string :=
  amount <- view "userTotalBorrowedAssetInUsd" [AStr user] ;;
  eval (formatUnits amount 18).

Definition getUserTotalCollateral (user : string) : M string :=
  amount <- view "userTotalCollateralAssetInUsd" [AStr user] ;;
  eval (formatUnits amount 18).

Definition allowedBorrowingAmount (user : string) : M string :=
  amount <- view "allowedBorrowingAmount" [AStr user] ;;
  eval (formatUnits amount 18).

Definition checkForBrokenHealthFactor (user : string) : M bool :=
  try_catch
    (perform (ReqCall "checkForBrokenHealthFactor" [AStr user])
       (call_void backend "checkForBrokenHealthFactor" [AStr user]) ;;;
     ret true)
    (fun _ => ret false).

Definition userHealthFactor (user : string) : M string :=
  try_catch
    (healthFactor <- view "userHealthFactor" [AStr user] ;;
     eval (formatUnits healthFactor 18))
    (fun error =>
       console LevelError "Error en userHealthFactor:" ;;;
       ret "0"%string).

Definition addLiquidity (token amount : string) (withdrawalTime : number)
  : M unit :=
  a <- eval (parseUnits amount 18) ;;
  t <- send "addLiquidity" [AStr token; ABig a; ANum withdrawalTime] ;;
  tx_wait t.

Definition withdrawFromLiquidityPool (token : string) : M unit :=
  t <- send "withdrawFromLiquidityPool" [AStr token] ;;
  tx_wait t.

Definition totalLiquidity (token : string) : M string :=
  amount <- view "totalLiquidity" [AStr token] ;;
  eval (formatUnits amount 18).

Definition calculateBasicLPRewards (token : string) : M string :=
  rewards <- view "calculateBasicLPRewards" [AStr token] ;;
  eval (formatUnits rewards 18).

(** [Number(formatUnits(v, 0))] *)
Definition Number_formatUnits0 (v : Z) : completion number :=
  match formatUnits v 0 with
  | Normal s => Normal (Number_of_string (list_ascii_of_string s))
  | Throw e => Throw e
  end.

Definition getLiquidityPool (user token : string) : M liquidity :=
  liquidity <- perform (ReqCall "liquidityPool" [AStr user; AStr token])
                 (call_pool backend "liquidityPool" [AStr user; AStr token]) ;;
  amount <- eval (formatUnits (p_amount liquidity) 18) ;;
  withdrawalTime <- eval (Number_formatUnits0 (p_withdrawalTime liquidity)) ;;
  addedAt <- eval (Number_formatUnits0 (p_addedAt liquidity)) ;;
  ret (mkLiquidity amount withdrawalTime addedAt).

Definition rebalancePortfolio (swapFrom swapTo amount : string) : M unit :=
  a <- eval (parseUnits amount 18) ;;
  t <- send "rebalancePortfolio" [AStr swapFrom; AStr swapTo; ABig a] ;;
  tx_wait t.

Definition treasury (token : string) : M string :=
  amount <- view "treasury" [AStr token] ;;
  eval (formatUnits amount 18).

Definition getTotalValueLocked (token : string) : M string :=
  value <- view "tvl" [AStr token] ;;
  eval (formatUnits value 18).

Definition priceFeeds (token : string) : M string :=
  perform (ReqCall "priceFeeds" [AStr token])
    (call_string backend "priceFeeds" [AStr token]).

Definition transferOwnership (newOwner : string) : M unit :=
  t <- send "transferOwnership" [AStr newOwner] ;;
  tx_wait t.

Definition acceptOwnership : M unit :=
  t <- send "acceptOwnership" [] ;;
  tx_wait t.

(** The callback of [events.map]: the decoded event, or [null]. *)
Definition decode (eventName : string) (l : log) : M (option Events) :=
  try_catch
    (parsedLog <- eval (parseLog backend l) ;;
     match parsedLog with
     | None =>
         console LevelWarn "⚠️ Unable to parse log:" ;;;
         ret None
     | Some args =>
         let formattedDate :=
           number_mul (Number_of_bigint (a_timeStamp args)) (Finite 1000) in
         formattedAmount <- eval (formatUnits (a_amount args) 18) ;;
         ret (Some (mkEvents (a_user args) (a_token args) formattedAmount
                      formattedDate eventName))
     end)
    (fun error =>
       console LevelError "error to process event" ;;;
       ret None).

(** [Array.prototype.map] with a callback that has effects. *)
Fixpoint mapM {A B} (f : A -> M B) (l : list A) : M (list B) :=
  match l with
  | [] => ret []
  | a :: l' => b <- f a ;; bs <- mapM f l' ;; ret (b :: bs)
  end.

(** [.filter((event) => event !== null)] *)
Fixpoint filter_non_null {A} (l : list (option A)) : list A :=
  match l with
  | [] => []
  | Some a :: l' => a :: filter_non_null l'
  | None :: l' => filter_non_null l'
  end.

(** [toBlock] is [None] when the caller leaves it out. *)
Definition queryFilterEventByAccount
    (acount eventName : string) (fromBlock : number) (toBlock : option blockTag)
  : M (list Events) :=
  let toBlock := match toBlock with Some b => b | None => BlockName "latest" end in
  filters_ <- eval (filters backend eventName acount) ;;
  events <- perform (ReqQueryFilter filters_ fromBlock toBlock)
              (queryFilter backend filters_ fromBlock toBlock) ;;
  parsedEvent <- mapM (decode eventName) events ;;
  ret (filter_non_null parsedEvent).

Definition getLastBlock : M number :=
  perform ReqBlockNumber (getBlockNumber backend).

End Class.

End Adapter.

(* ===================================================================== *)
(** ** The health-factor observer *)
(* ===================================================================== *)

Module Observer.
Import JS.

(** The contract handle of the context is an object: it is known by its
    identity. *)
Definition handle : Type := nat.

(** [account]: a string or [null]. *)
Definition account : Type := option string.

(** [!contract || !account]: [null] and the empty string are falsy. *)
Definition falsy_account (a : account) : bool :=
  match a with
  | None => true
  | Some s => String.eqb s ""
  end.

Definition waiting (contract : option handle) (acc : account) : bool :=
  match contract with
  | None => true
  | Some _ => falsy_account acc
  end.

(** A read that was issued and has not settled yet. *)
Record fetch : Type := mkFetch { f_id : nat; f_contract : handle; f_account : string }.

(** The hook instance between two steps of the runtime. *)
Record state : Type := mkState {
  healthFactor : option string;                   (* [useState(null)] *)
  deps : option (option handle * account);        (* of the last effect run *)
  pending : list fetch;
  issued : list (handle * string);                (* reads sent so far *)
  next_id : nat;
  console_ : list (Adapter.consoleLevel * string)
}.

Definition init : state := mkState None None [] [] 0%nat [].

(** What the runtime does to the hook: render it with the current context
    values, or settle the promise of a read issued earlier. *)
Inductive event : Type :=
| Render (contract : option handle) (acc : account)
| Settle (id : nat) (result : completion string).

Definition handle_eqb (a b : option handle) : bool :=
  match a, b with
  | Some x, Some y => Nat.eqb x y
  | None, None => true
  | _, _ => false
  end.

Definition account_eqb (a b : account) : bool :=
  match a, b with
  | Some x, Some y => String.eqb x y
  | None, None => true
  | _, _ => false
  end.

(** The dependency array [[contract, account]] differs from the one of the
    last run (or there was no run yet). *)
Definition deps_changed (s : state) (contract : option handle) (acc : account)
  : bool :=
  match deps s with
  | None => true
  | Some (c, a) => negb (handle_eqb c contract && account_eqb a acc)
  end.

(** The body of the effect. *)
Definition effect (s : state) (contract : option handle) (acc : account)
  : state :=
  match contract, acc with
  | Some c, Some a =>
      if String.eqb a "" then
        mkState (healthFactor s) (Some (contract, acc)) (pending s) (issued s)
          (next_id s)
          (console_ s ++ [(Adapter.LevelLog,
                           "useHealthFactor: Esperando valores correctos..."%string)])
      else
        mkState (healthFactor s) (Some (contract, acc))
          (pending s ++ [mkFetch (next_id s) c a])
          (issued s ++ [(c, a)])
          (S (next_id s))
          (console_ s ++ [(Adapter.LevelLog,
                           "useHealthFactor: Ejecutando consulta..."%string)])
  | _, _ =>
      mkState (healthFactor s) (Some (contract, acc)) (pending s) (issued s)
        (next_id s)
        (console_ s ++ [(Adapter.LevelLog,
                         "useHealthFactor: Esperando valores correctos..."%string)])
  end.

Definition is_pending (id : nat) (s : state) : bool :=
  existsb (fun f => Nat.eqb (f_id f) id) (pending s).

Definition remove_pending (id : nat) (l : list fetch) : list fetch :=
  filter (fun f => negb (Nat.eqb (f_id f) id)) l.

(** The continuation of [fetchHealthFactor] after its [await]. *)
Definition settle (s : state) (id : nat) (result : completion string) : state :=
  if is_pending id s then
    match result with
    | Normal factor =>
        mkState (Some factor) (deps s) (remove_pending id (pending s))
          (issued s) (next_id s) (console_ s)
    | Throw error =>
        mkState (healthFactor s) (deps s) (remove_pending id (pending s))
          (issued s) (next_id s)
          (console_ s ++ [(Adapter.LevelError,
                           "Error fetching health factor:"%string)])
    end
  else s.

Definition step (s : state) (ev : event) : state :=
  match ev with
  | Render contract acc =>
      if deps_changed s contract acc then effect s contract acc else s
  | Settle id result => settle s id result
  end.

Definition run (s : state) (evs : list event) : state := fold_left step evs s.

End Observer.

(* ===================================================================== *)
(** ** A test double for the contract *)
(* ===================================================================== *)

Module Mock.
Import JS Ethers Adapter.

(** Logs are numbered; the second one does not decode. *)
Definition parse (l : nat) : completion (option logArgs) :=
  match l with
  | 1%nat => Normal (Some (mkArgs "0xA11CE" "0xDA1" 5000000000000000000 1700000000))
  | 3%nat => Normal (Some (mkArgs "0xA11CE" "0xDA1" 1500000000000000000 1700000600))
  | 4%nat => Normal (Some (mkArgs "0xA11CE" "0xDA1" 1000000000000000000 9007199254740993))
  | _ => Throw (mkExn "INVALID_ARGUMENT" "no matching event")
  end.

(** A contract that echoes the amount it is given, mines every
    transaction, holds one liquidity position and has the given logs. *)
Definition contract (logs : list nat) : Backend unit nat (string * string) nat :=
  mkBackend unit nat (string * string) nat
    (fun _ args st =>
       (match args with
        | [_; ABig a] => Normal a
        | _ => Normal 2000000000000000000
        end, st))
    (fun _ _ st => (Normal 7%nat, st))
    (fun _ st => (Normal tt, st))
    (fun _ _ st => (Normal tt, st))
    (fun _ _ st => (Normal (mkPool 5000000000000000000 1000 2000), st))
    (fun _ _ st => (Normal "0xFEED"%string, st))
    (fun ev acc => Normal (ev, acc))
    (fun _ _ _ st => (Normal logs, st))
    parse
    (fun st => (Normal (Finite 123), st)).

Definition echo := contract [1; 2; 3]%nat.

(** The same contract with one log, stamped 2^53 + 1 seconds. *)
Definition archive := contract [4]%nat.

(** A contract out of reach: every round trip fails. *)
Definition down : Backend unit nat (string * string) nat :=
  let e := mkExn "NETWORK_ERROR" "could not detect network" in
  mkBackend unit nat (string * string) nat
    (fun _ _ st => (Throw e, st))
    (fun _ _ st => (Throw e, st))
    (fun _ st => (Throw e, st))
    (fun _ _ st => (Throw e, st))
    (fun _ _ st => (Throw e, st))
    (fun _ _ st => (Throw e, st))
    (fun ev acc => Normal (ev, acc))
    (fun _ _ _ st => (Throw e, st))
    parse
    (fun st => (Throw e, st)).

Definition w0 : world (chain := unit) (tx := nat) (filter := string * string) :=
  mkWorld tt [] [].

End Mock.

(* ===================================================================== *)
(** ** Decimal strings *)
(* ===================================================================== *)

(** The vocabulary of the statements about the unit conversions. *)
Module Decimal.
Import JS Ethers.

(** A run of [k] zeros. *)
Definition zeros (k : nat) : chars := repeat "0"%char k.

(** The value of a run of digits that continues the number [acc]. *)
Definition value_from (acc : Z) (s : chars) : Z :=
  fold_left (fun a c => 10 * a + digit_val c) s acc.

(** The whole part after [trim_start]: leading zeros dropped, one
    character kept. *)
Fixpoint keep1 (w : chars) : chars :=
  match w with
  | c :: (_ :: _) as r => if is_zero c then keep1 r else w
  | _ => w
  end.

(** The fractional part after [trim_end]. *)
Definition strip_end (f : chars) : chars := rev (keep1 (rev f)).

(** *** Strings with a decimal point *)

Definition sign_chars (neg : bool) : chars := if neg then ["-"%char] else [].

(** The string [-w.f]: sign, whole digits, dot, fractional digits. *)
Definition dotted (neg : bool) (w f : chars) : string :=
  string_of_list_ascii (sign_chars neg ++ w ++ "."%char :: f).

(** The integer [fromString] computes from [-w.f] when it computes one. *)
Definition scaled (neg : bool) (w f : chars) (decimals : nat) : Z :=
  let v := digits_value (w ++ firstn decimals f ++ zeros (decimals - length f)) in
  if neg then - v else v.

(** The strings [formatUnits] prints: a sign only before a non-zero
    value, a whole part without a superfluous leading zero, a dot, and
    one to [decimals] fractional digits without a superfluous trailing
    zero. *)
Record canonical (decimals : nat) (neg : bool) (w f : chars) : Prop := {
  can_whole_digits : forallb is_digit w = true;
  can_frac_digits : forallb is_digit f = true;
  can_whole : w <> [] /\ keep1 w = w;
  can_frac : f <> [] /\ strip_end f = f;
  can_frac_length : (length f <= decimals)%nat;
  can_sign : neg = true -> digits_value (w ++ f) <> 0
}.

(** *** Canonical decimal strings, decided *)

Definition is_nil {A} (l : list A) : bool :=
  match l with [] => true | _ :: _ => false end.

(** No zero that [keep1] would drop. *)
Definition no_extra_zero (w : chars) : bool :=
  match w with
  | c :: _ :: _ => negb (is_zero c)
  | _ => true
  end.

Definition canonicalb (decimals : nat) (neg : bool) (w f : chars) : bool :=
  forallb is_digit w && forallb is_digit f
  && negb (is_nil w) && no_extra_zero w
  && negb (is_nil f) && no_extra_zero (rev f)
  && (length f <=? decimals)%nat
  && implb neg (negb (digits_value (w ++ f) =? 0)).

(** [d] has the form [formatUnits] prints with [decimals] decimals. *)
Definition canonical_decimal (decimals : nat) (d : string) : bool :=
  match match_fixed (list_ascii_of_string d) with
  | Some (sign, w, f) =>
      existsb (Ascii.eqb ".") (list_ascii_of_string d)
      && canonicalb decimals (negb (is_nil sign)) w f
  | None => false
  end.

(** The number of fractional digits of a decimal string; [None] when the
    string is not a decimal literal. *)
Definition fractional_digits (d : string) : option nat :=
  match match_fixed (list_ascii_of_string d) with
  | Some (_, w, f) =>
      if (length w + length f =? 0)%nat then None else Some (length f)
  | None => None
  end.

End Decimal.

(* ===================================================================== *)
(** ** The vocabulary of the statements about the adapter and the observer *)
(* ===================================================================== *)

Module Spec.
Import JS Ethers Adapter.

(** A [uint256], the type of every amount and timestamp of the contract. *)
Definition uint256 (v : Z) : Prop := 0 <= v < 2 ^ 256.

(** A call of one of the ten state-changing methods. *)
Inductive write_call : Type :=
| DepositCollateral (token amount : string)
| BorrowAsset (token amount : string) (repaymentTimestamp : number)
| WithdrawCollateralDeposited (token : string)
| RepayLoan (token amount : string)
| LiquidatePosition (userToLiquidate borrowedAsset collateralAsset amount : string)
| AddLiquidity (token amount : string) (withdrawalTime : number)
| WithdrawFromLiquidityPool (token : string)
| RebalancePortfolio (swapFrom swapTo amount : string)
| TransferOwnership (newOwner : string)
| AcceptOwnership.

(** The contract method the call goes to. *)
Definition method_of (c : write_call) : string :=
  match c with
  | DepositCollateral _ _ => "depositCollateral"
  | BorrowAsset _ _ _ => "borrowAsset"
  | WithdrawCollateralDeposited _ => "withdrawCollateralDeposited"
  | RepayLoan _ _ => "repayLoan"
  | LiquidatePosition _ _ _ _ => "liquidatePosition"
  | AddLiquidity _ _ _ => "addLiquidity"
  | WithdrawFromLiquidityPool _ => "withdrawFromLiquidityPool"
  | RebalancePortfolio _ _ _ => "rebalancePortfolio"
  | TransferOwnership _ => "transferOwnership"
  | AcceptOwnership => "acceptOwnership"
  end.

Definition with_amount (amount : string) (k : Z -> list arg)
  : completion (list arg) :=
  match parseUnits amount 18 with
  | Normal a => Normal (k a)
  | Throw e => Throw e
  end.

(** The arguments the method is handed, or the fault met while they are
    evaluated. *)
Definition args_of (c : write_call) : completion (list arg) :=
  match c with
  | DepositCollateral token amount =>
      with_amount amount (fun a => [AStr token; ABig a])
  | BorrowAsset token amount t =>
      with_amount amount (fun a => [AStr token; ABig a; ANum t])
  | WithdrawCollateralDeposited token => Normal [AStr token]
  | RepayLoan token amount =>
      with_amount amount (fun a => [AStr token; ABig a])
  | LiquidatePosition u b c amount =>
      with_amount amount (fun a => [AStr u; AStr b; AStr c; ABig a])
  | AddLiquidity token amount t =>
      with_amount amount (fun a => [AStr token; ABig a; ANum t])
  | WithdrawFromLiquidityPool token => Normal [AStr token]
  | RebalancePortfolio x y amount =>
      with_amount amount (fun a => [AStr x; AStr y; ABig a])
  | TransferOwnership newOwner => Normal [AStr newOwner]
  | AcceptOwnership => Normal []
  end.

Section Contract.
Context {chain tx filter log : Type}.
Variable backend : Backend chain tx filter log.

(** The contract gives back the amount it is handed. *)
Definition echoes (token : string) : Prop :=
  forall a st,
    call_uint backend "getAssetValueInUSD" [AStr token; ABig a] st
    = (Normal a, st).

(** The adapter method of a call. *)
Definition run_write (c : write_call) : @M chain tx filter unit :=
  match c with
  | DepositCollateral token amount => depositCollateral backend token amount
  | BorrowAsset token amount t => borrowAsset backend token amount t
  | WithdrawCollateralDeposited token => withdrawCollateralDeposited backend token
  | RepayLoan token amount => repayLoan backend token amount
  | LiquidatePosition u b c amount => liquidatePosition backend u b c amount
  | AddLiquidity token amount t => addLiquidity backend token amount t
  | WithdrawFromLiquidityPool token => withdrawFromLiquidityPool backend token
  | RebalancePortfolio x y amount => rebalancePortfolio backend x y amount
  | TransferOwnership newOwner => transferOwnership backend newOwner
  | AcceptOwnership => acceptOwnership backend
  end.

(** Submit, then wait: [const tx = await method(args); await tx.wait()]. *)
Definition submit (method : string) (args : list arg) : @M chain tx filter unit :=
  bind (send backend method args) (tx_wait backend).

(** The world after the requests [reqs], the chain left in state [st]. *)
Definition after (w : @world chain tx filter) (st : chain)
    (reqs : list (request tx filter * option exn)) : @world chain tx filter :=
  mkWorld st (w_trace w ++ reqs) (w_console w).

Variable eventName : string.

(** The callback of [events.map] gives [r] for the log [l], in every
    world. *)
Definition decodes_to (l : log) (r : option Events) : Prop :=
  forall w : @world chain tx filter,
    fst (decode backend eventName l w) = Normal r.

(** [evs] is what is left of [logs]: the decoded entries, in the order of
    the logs, and nothing for an entry that does not decode. *)
Inductive survivors : list log -> list Events -> Prop :=
| survivors_nil : survivors [] []
| survivors_keep l ev logs evs :
    decodes_to l (Some ev) -> survivors logs evs ->
    survivors (l :: logs) (ev :: evs)
| survivors_drop l logs evs :
    decodes_to l None -> survivors logs evs ->
    survivors (l :: logs) evs.

(** What the callback computes, without its console output. *)
Definition decoded (l : log) : option Events :=
  match parseLog backend l with
  | Normal (Some args) =>
      match formatUnits (a_amount args) 18 with
      | Normal formattedAmount =>
          Some (mkEvents (a_user args) (a_token args) formattedAmount
                  (number_mul (Number_of_bigint (a_timeStamp args)) (Finite 1000))
                  eventName)
      | Throw _ => None
      end
  | Normal None => None
  | Throw _ => None
  end.

End Contract.

(** Every pending read was sent, with a handle and a non-empty account. *)
Definition sound (s : Observer.state) : Prop :=
  forall f, In f (Observer.pending s) ->
    In (Observer.f_contract f, Observer.f_account f) (Observer.issued s)
    /\ Observer.f_account f <> ""%string.

End Spec.

(* ===================================================================== *)
(** ** The vocabulary of the statements about the rest of the class *)
(* ===================================================================== *)

Module Coverage.
Import JS Ethers Adapter Decimal Spec.

(** A call of one of the eight reads of an amount with no amount
    argument. *)
Inductive read_call : Type :=
| CollateralDeposited (user token : string)
| GetUserTotalBorrowed (user : string)
| GetUserTotalCollateral (user : string)
| AllowedBorrowingAmount (user : string)
| TotalLiquidity (token : string)
| CalculateBasicLPRewards (token : string)
| Treasury (token : string)
| GetTotalValueLocked (token : string).

(** The contract method behind the adapter's method. *)
Definition read_method (c : read_call) : string :=
  match c with
  | CollateralDeposited _ _ => "collateralDeposited"
  | GetUserTotalBorrowed _ => "userTotalBorrowedAssetInUsd"
  | GetUserTotalCollateral _ => "userTotalCollateralAssetInUsd"
  | AllowedBorrowingAmount _ => "allowedBorrowingAmount"
  | TotalLiquidity _ => "totalLiquidity"
  | CalculateBasicLPRewards _ => "calculateBasicLPRewards"
  | Treasury _ => "treasury"
  | GetTotalValueLocked _ => "tvl"
  end.

Definition read_args (c : read_call) : list arg :=
  match c with
  | CollateralDeposited user token => [AStr user; AStr token]
  | GetUserTotalBorrowed user => [AStr user]
  | GetUserTotalCollateral user => [AStr user]
  | AllowedBorrowingAmount user => [AStr user]
  | TotalLiquidity token => [AStr token]
  | CalculateBasicLPRewards token => [AStr token]
  | Treasury token => [AStr token]
  | GetTotalValueLocked token => [AStr token]
  end.

(** The amount argument of a state-changing call, when it has one. *)
Definition amount_of (c : write_call) : option string :=
  match c with
  | DepositCollateral _ amount => Some amount
  | BorrowAsset _ amount _ => Some amount
  | RepayLoan _ amount => Some amount
  | LiquidatePosition _ _ _ amount => Some amount
  | AddLiquidity _ amount _ => Some amount
  | RebalancePortfolio _ _ amount => Some amount
  | WithdrawCollateralDeposited _ => None
  | WithdrawFromLiquidityPool _ => None
  | TransferOwnership _ => None
  | AcceptOwnership => None
  end.

(** A decimal literal: sign, whole digits and, behind a dot, fractional
    digits; [None] is a literal without a dot. *)
Definition literal (neg : bool) (w : chars) (f : option chars) : string :=
  match f with
  | Some f => dotted neg w f
  | None => string_of_list_ascii (sign_chars neg ++ w)
  end.

Definition fraction (f : option chars) : chars :=
  match f with Some f => f | None => [] end.

(** The integer a literal with at most [decimals] fractional digits
    denotes at the scale of [decimals] digits. *)
Definition fixed_point (neg : bool) (w : chars) (f : option chars)
    (decimals : nat) : Z :=
  let n := digits_value (w ++ fraction f)
           * 10 ^ Z.of_nat (decimals - length (fraction f)) in
  if neg then - n else n.

Definition invalid_value : exn :=
  INVALID_ARGUMENT "invalid FixedNumber string value".

Section Contract.
Context {chain tx filter log : Type}.
Variable backend : Backend chain tx filter log.

(** The adapter method of a read. *)
Definition run_read (c : read_call) : @M chain tx filter string :=
  match c with
  | CollateralDeposited user token => collateralDeposited backend user token
  | GetUserTotalBorrowed user => getUserTotalBorrowed backend user
  | GetUserTotalCollateral user => getUserTotalCollateral backend user
  | AllowedBorrowingAmount user => allowedBorrowingAmount backend user
  | TotalLiquidity token => totalLiquidity backend token
  | CalculateBasicLPRewards token => calculateBasicLPRewards backend token
  | Treasury token => treasury backend token
  | GetTotalValueLocked token => getTotalValueLocked backend token
  end.

(** What the callback of [events.map] writes to the console for a log:
    nothing for an entry that decodes, one line for one that does not. *)
Definition drop_line (l : log) : list (consoleLevel * string) :=
  match parseLog backend l with
  | Normal (Some args) =>
      match formatUnits (a_amount args) 18 with
      | Normal _ => []
      | Throw _ => [(LevelError, "error to process event"%string)]
      end
  | Normal None => [(LevelWarn, "⚠️ Unable to parse log:"%string)]
  | Throw _ => [(LevelError, "error to process event"%string)]
  end.

End Contract.

(** A contract that answers every read of an amount with [v]; the rest
    as [Mock.echo]. *)
Definition answering (v : Z) : Backend unit nat (string * string) nat :=
  mkBackend unit nat (string * string) nat
    (fun _ _ st => (Normal v, st))
    (call_tx Mock.echo) (wait Mock.echo) (call_void Mock.echo)
    (call_pool Mock.echo) (call_string Mock.echo) (filters Mock.echo)
    (queryFilter Mock.echo) (parseLog Mock.echo) (getBlockNumber Mock.echo).

(** A contract whose interface has no event of the requested name:
    [filters[eventName]] is [undefined] and calling it throws. *)
Definition no_such_event : Backend unit nat (string * string) nat :=
  mkBackend unit nat (string * string) nat
    (call_uint Mock.echo) (call_tx Mock.echo) (wait Mock.echo)
    (call_void Mock.echo) (call_pool Mock.echo) (call_string Mock.echo)
    (fun _ _ => Throw (mkExn "TypeError" "filters[eventName] is not a function"))
    (queryFilter Mock.echo) (parseLog Mock.echo) (getBlockNumber Mock.echo).

(** The ids of the pending reads are below the next id, and no two
    pending reads share one. *)
Definition fresh_ids (s : Observer.state) : Prop :=
  (forall f, In f (Observer.pending s) ->
     (Observer.f_id f < Observer.next_id s)%nat)
  /\ NoDup (map Observer.f_id (Observer.pending s)).

End Coverage.

(* ===================================================================== *)
(** ** Decimal digits *)
(* ===================================================================== *)

Module DigitFacts.
Import JS Decimal.

Lemma is_digit_range c :
  is_digit c = true <-> 0 <= digit_val c < 10.
Proof.
  unfold is_digit, digit_val.
  rewrite andb_true_iff, !Nat.leb_le. lia.
Qed.

Lemma digit_val_char d : 0 <= d < 10 -> digit_val (digit_char d) = d.
Proof.
  intros Hd. unfold digit_val, digit_char.
  rewrite nat_ascii_embedding by lia. lia.
Qed.

Lemma is_digit_char d : 0 <= d < 10 -> is_digit (digit_char d) = true.
Proof.
  intros Hd. apply is_digit_range. rewrite digit_val_char; lia.
Qed.

Lemma digit_char_val c : is_digit c = true -> digit_char (digit_val c) = c.
Proof.
  intros Hc. unfold is_digit in Hc.
  rewrite andb_true_iff, !Nat.leb_le in Hc.
  unfold digit_char, digit_val.
  replace (Z.to_nat (Z.of_nat (nat_of_ascii c) - 48) + 48)%nat
    with (nat_of_ascii c) by lia.
  apply ascii_nat_embedding.
Qed.

Lemma is_zero_eq c : is_zero c = true <-> c = "0"%char.
Proof. unfold is_zero. apply Ascii.eqb_eq. Qed.

(** *** [digits_value] *)

Lemma value_from_acc s : forall acc,
  value_from acc s = acc * 10 ^ Z.of_nat (length s) + value_from 0 s.
Proof.
  induction s as [|c s IH]; intros acc.
  - cbn. lia.
  - cbn [value_from fold_left length]. fold (value_from (10 * acc + digit_val c) s).
    fold (value_from (10 * 0 + digit_val c) s).
    rewrite (IH (10 * acc + digit_val c)), (IH (10 * 0 + digit_val c)).
    rewrite Nat2Z.inj_succ, Z.pow_succ_r by lia. ring.
Qed.

Lemma digits_value_app a b :
  digits_value (a ++ b)
  = digits_value a * 10 ^ Z.of_nat (length b) + digits_value b.
Proof.
  unfold digits_value. rewrite fold_left_app.
  fold (value_from (fold_left (fun acc c => 10 * acc + digit_val c) a 0) b).
  rewrite value_from_acc. reflexivity.
Qed.

Lemma digits_value_cons c s :
  digits_value (c :: s) = digit_val c * 10 ^ Z.of_nat (length s) + digits_value s.
Proof.
  change (c :: s) with ([c] ++ s). rewrite digits_value_app.
  cbn. f_equal.
Qed.

Lemma digits_value_snoc s c :
  digits_value (s ++ [c]) = 10 * digits_value s + digit_val c.
Proof.
  rewrite digits_value_app. cbn [length].
  change (Z.of_nat 1) with 1. rewrite Z.pow_1_r.
  unfold digits_value at 2. cbn [fold_left]. lia.
Qed.

Lemma digits_value_zeros k : digits_value (zeros k) = 0.
Proof.
  induction k as [|k IH]; [reflexivity|].
  cbn [zeros repeat]. rewrite digits_value_cons. fold (zeros k).
  rewrite IH. reflexivity.
Qed.

Lemma digits_value_zeros_app k s : digits_value (zeros k ++ s) = digits_value s.
Proof. rewrite digits_value_app, digits_value_zeros. lia. Qed.

Lemma digits_value_app_zeros s k :
  digits_value (s ++ zeros k) = digits_value s * 10 ^ Z.of_nat k.
Proof.
  rewrite digits_value_app, digits_value_zeros.
  unfold zeros. rewrite repeat_length. lia.
Qed.

Lemma digits_value_bounds s :
  forallb is_digit s = true ->
  0 <= digits_value s < 10 ^ Z.of_nat (length s).
Proof.
  induction s as [|c s IH] using rev_ind; intros Hs.
  - cbn. lia.
  - rewrite forallb_app in Hs. cbn in Hs.
    rewrite !andb_true_iff in Hs. destruct Hs as [Hs [Hc _]].
    apply is_digit_range in Hc. specialize (IH Hs).
    rewrite digits_value_snoc, length_app. cbn [length].
    replace (Z.of_nat (length s + 1)) with (Z.succ (Z.of_nat (length s))) by lia.
    rewrite Z.pow_succ_r by lia. lia.
Qed.

Lemma forallb_zeros_digit k : forallb is_digit (zeros k) = true.
Proof. induction k; cbn; auto. Qed.

Lemma forallb_zeros k : forallb is_zero (zeros k) = true.
Proof. induction k; cbn; auto. Qed.

Lemma zeros_app i j : zeros i ++ zeros j = zeros (i + j).
Proof. unfold zeros. symmetry. apply repeat_app. Qed.

Lemma zeros_length k : length (zeros k) = k.
Proof. apply repeat_length. Qed.

Lemma forallb_is_zero_zeros s :
  forallb is_zero s = true -> s = zeros (length s).
Proof.
  induction s as [|c s IH]; [reflexivity|].
  cbn. rewrite andb_true_iff. intros [Hc Hs].
  apply is_zero_eq in Hc. subst. f_equal. auto.
Qed.

(** *** [digits_of] *)

Lemma digits_loop_acc fuel : forall n acc,
  digits_loop fuel n acc = digits_loop fuel n [] ++ acc.
Proof.
  induction fuel as [|fuel IH]; intros n acc; [reflexivity|].
  cbn [digits_loop]. destruct (n <? 10); [reflexivity|].
  rewrite (IH (n / 10) (_ :: acc)), (IH (n / 10) [_]).
  rewrite <- app_assoc. reflexivity.
Qed.

Lemma digits_loop_fuel f : forall f' n acc,
  (0 < f)%nat -> (0 < f')%nat ->
  0 <= n < 10 ^ Z.of_nat f -> 0 <= n < 10 ^ Z.of_nat f' ->
  digits_loop f n acc = digits_loop f' n acc.
Proof.
  induction f as [|f IH]; intros f' n acc Hpos Hpos' Hf Hf'; [lia|].
  destruct f' as [|f']; [lia|].
  cbn [digits_loop]. destruct (Z.ltb_spec n 10); [reflexivity|].
  rewrite Nat2Z.inj_succ, Z.pow_succ_r in Hf, Hf' by lia.
  assert (Hq : 1 <= n / 10) by (apply Z.div_le_lower_bound; lia).
  assert (Hqf : n / 10 < 10 ^ Z.of_nat f)
    by (apply Z.div_lt_upper_bound; lia).
  assert (Hqf' : n / 10 < 10 ^ Z.of_nat f')
    by (apply Z.div_lt_upper_bound; lia).
  apply IH; try lia.
  - destruct f; [cbn in Hqf; lia|lia].
  - destruct f'; [cbn in Hqf'; lia|lia].
Qed.

Lemma digits_of_fuel n : 0 <= n -> n < 10 ^ Z.of_nat (S (Z.to_nat (Z.log2 n))).
Proof.
  intros Hn.
  destruct (Z.eq_dec n 0) as [->|Hz]; [cbn; lia|].
  pose proof (Z.log2_spec n ltac:(lia)) as [_ Hlt].
  pose proof (Z.log2_nonneg n) as Hl.
  rewrite Nat2Z.inj_succ, Z2Nat.id by lia.
  eapply Z.lt_le_trans; [exact Hlt|].
  apply Z.pow_le_mono_l. lia.
Qed.

Lemma digits_of_small n : 0 <= n < 10 -> digits_of n = [digit_char n].
Proof.
  intros Hn. unfold digits_of. cbn [digits_loop].
  destruct (Z.ltb_spec n 10); [|lia].
  rewrite Z.mod_small by lia. reflexivity.
Qed.

Lemma digits_of_step n :
  10 <= n -> digits_of n = digits_of (n / 10) ++ [digit_char (n mod 10)].
Proof.
  intros Hn. unfold digits_of at 1. cbn [digits_loop].
  destruct (Z.ltb_spec n 10); [lia|].
  rewrite digits_loop_acc. f_equal.
  assert (H0 : 0 <= n / 10) by (apply Z.div_pos; lia).
  assert (Hq : 1 <= n / 10) by (apply Z.div_le_lower_bound; lia).
  pose proof (digits_of_fuel n ltac:(lia)) as Hf.
  rewrite Nat2Z.inj_succ, Z.pow_succ_r in Hf by lia.
  assert (Hqf : n / 10 < 10 ^ Z.of_nat (Z.to_nat (Z.log2 n)))
    by (apply Z.div_lt_upper_bound; lia).
  apply digits_loop_fuel; try lia.
  - destruct (Z.to_nat (Z.log2 n)); [cbn in Hqf; lia|lia].
  - split; [assumption|]. apply digits_of_fuel. assumption.
Qed.

Lemma digits_of_snoc n d :
  0 < n -> 0 <= d < 10 ->
  digits_of (10 * n + d) = digits_of n ++ [digit_char d].
Proof.
  intros Hn Hd. rewrite digits_of_step by lia.
  replace ((10 * n + d) / 10) with n
    by (apply Z.div_unique with d; lia).
  replace ((10 * n + d) mod 10) with d
    by (apply Z.mod_unique with n; lia).
  reflexivity.
Qed.

(** Every non-negative integer is the value of its digits. *)
Lemma digits_of_spec n :
  0 <= n ->
  forallb is_digit (digits_of n) = true
  /\ digits_value (digits_of n) = n
  /\ digits_of n <> [].
Proof.
  intros Hn. generalize Hn. pattern n. apply Z_lt_induction; [|exact Hn].
  clear n Hn. intros n IH Hn.
  destruct (Z.ltb_spec n 10) as [Hlt|Hge].
  - rewrite digits_of_small by lia. cbn [forallb].
    rewrite is_digit_char by lia. repeat split; try discriminate.
    unfold digits_value. cbn. rewrite digit_val_char; lia.
  - rewrite digits_of_step by lia.
    assert (Hq : 0 <= n / 10 < n).
    { split; [apply Z.div_pos; lia|apply Z.div_lt; lia]. }
    destruct (IH (n / 10) Hq ltac:(lia)) as (Hd & Hv & Hne).
    pose proof (Z.mod_pos_bound n 10 ltac:(lia)) as Hm.
    rewrite forallb_app, Hd, digits_value_snoc, Hv. cbn [forallb].
    rewrite is_digit_char, digit_val_char by lia.
    repeat split.
    + pose proof (Z.div_mod n 10 ltac:(lia)). lia.
    + intros Habs. apply app_eq_nil in Habs. destruct Habs; discriminate.
Qed.

(** A run of digits is its value's digits behind some zeros. *)
Lemma digits_canon s :
  forallb is_digit s = true -> s <> [] ->
  exists i, s = zeros i ++ digits_of (digits_value s).
Proof.
  induction s as [|c s IH] using rev_ind; intros Hs Hne; [congruence|].
  rewrite forallb_app in Hs. cbn in Hs.
  rewrite !andb_true_iff in Hs. destruct Hs as [Hs [Hc _]].
  pose proof (proj1 (is_digit_range c) Hc) as Hr.
  rewrite digits_value_snoc.
  destruct s as [|c0 s0].
  - exists 0%nat. unfold digits_value. cbn [fold_left app zeros repeat].
    rewrite digits_of_small by lia.
    replace (10 * 0 + digit_val c) with (digit_val c) by lia.
    rewrite digit_char_val by assumption. reflexivity.
  - destruct (IH Hs ltac:(discriminate)) as [i Hi].
    pose proof (digits_value_bounds _ Hs) as [Hlo _].
    destruct (Z.eq_dec (digits_value (c0 :: s0)) 0) as [Hz|Hnz].
    + rewrite Hz in *. exists (S i).
      rewrite digits_of_small in Hi by lia.
      rewrite digits_of_small by lia.
      replace (10 * 0 + digit_val c) with (digit_val c) by lia.
      rewrite digit_char_val by assumption.
      rewrite Hi at 1. change (digit_char 0) with "0"%char.
      change [ "0"%char ] with (zeros 1). rewrite zeros_app.
      replace (i + 1)%nat with (S i) by lia. reflexivity.
    + exists i. rewrite digits_of_snoc by lia.
      rewrite digit_char_val by assumption.
      rewrite Hi at 1. rewrite <- app_assoc. reflexivity.
Qed.

End DigitFacts.

(* ===================================================================== *)
(** ** Facts about the unit conversions *)
(* ===================================================================== *)

Module EthersFacts.
Import JS Ethers Decimal DigitFacts.

Lemma keep1_nonempty w : w <> [] -> keep1 w <> [].
Proof.
  induction w as [|c w IH]; intros H; [congruence|].
  destruct w as [|c' w']; [discriminate|].
  cbn [keep1]. destruct (is_zero c); [apply IH|]; discriminate.
Qed.

Lemma keep1_zeros w : exists k, w = zeros k ++ keep1 w.
Proof.
  induction w as [|c w IH]; [exists 0%nat; reflexivity|].
  destruct w as [|c' w']; [exists 0%nat; reflexivity|].
  cbn [keep1]. destruct (is_zero c) eqn:Hc; [|exists 0%nat; reflexivity].
  destruct IH as [k Hk]. exists (S k).
  apply is_zero_eq in Hc. subst c. cbn [zeros repeat app].
  f_equal. exact Hk.
Qed.

Lemma keep1_digits w :
  forallb is_digit w = true -> forallb is_digit (keep1 w) = true.
Proof.
  destruct (keep1_zeros w) as [k Hk]. intros H.
  rewrite Hk, forallb_app in H. apply andb_true_iff in H. tauto.
Qed.

Lemma keep1_value w : digits_value (keep1 w) = digits_value w.
Proof.
  destruct (keep1_zeros w) as [k Hk].
  rewrite Hk at 2. rewrite digits_value_zeros_app. reflexivity.
Qed.

Lemma keep1_zeros_app k w : w <> [] -> keep1 (zeros k ++ w) = keep1 w.
Proof.
  intros Hw. induction k as [|k IH]; [reflexivity|].
  cbn [zeros repeat app]. fold (zeros k).
  destruct (zeros k ++ w) as [|c r] eqn:E.
  - apply app_eq_nil in E. tauto.
  - cbn [keep1]. change (is_zero "0") with true. cbn. exact IH.
Qed.

Lemma strip_end_nonempty f : f <> [] -> strip_end f <> [].
Proof.
  intros H. unfold strip_end. intros E.
  apply (f_equal (@rev ascii)) in E. rewrite rev_involutive in E. cbn in E.
  apply keep1_nonempty in E; [assumption|].
  intros R. apply (f_equal (@rev ascii)) in R.
  rewrite rev_involutive in R. cbn in R. congruence.
Qed.

Lemma rev_zeros k : rev (zeros k) = zeros k.
Proof.
  induction k as [|k IH]; [reflexivity|].
  cbn [zeros repeat rev]. fold (zeros k). rewrite IH.
  change ["0"%char] with (zeros 1). rewrite zeros_app.
  replace (k + 1)%nat with (S k) by lia. reflexivity.
Qed.

Lemma strip_end_zeros f : exists k, f = strip_end f ++ zeros k.
Proof.
  unfold strip_end. destruct (keep1_zeros (rev f)) as [k Hk].
  exists k. apply (f_equal (@rev ascii)) in Hk.
  rewrite rev_involutive, rev_app_distr, rev_zeros in Hk. exact Hk.
Qed.

Lemma strip_end_length f : (length (strip_end f) <= length f)%nat.
Proof.
  destruct (strip_end_zeros f) as [k Hk].
  rewrite Hk at 2. rewrite length_app. lia.
Qed.

Lemma strip_end_digits f :
  forallb is_digit f = true -> forallb is_digit (strip_end f) = true.
Proof.
  destruct (strip_end_zeros f) as [k Hk]. intros H.
  rewrite Hk, forallb_app in H. apply andb_true_iff in H. tauto.
Qed.

Lemma strip_end_app_zeros f k : f <> [] -> strip_end (f ++ zeros k) = strip_end f.
Proof.
  intros Hf. unfold strip_end.
  rewrite rev_app_distr, rev_zeros, keep1_zeros_app; [reflexivity|].
  intros R. apply (f_equal (@rev ascii)) in R.
  rewrite rev_involutive in R. cbn in R. congruence.
Qed.

(** *** The loops of [toString] *)

Lemma digit_not_dot c : is_digit c = true -> Ascii.eqb c "." = false.
Proof.
  intros H. destruct (Ascii.eqb_spec c "."%char) as [->|]; [discriminate|reflexivity].
Qed.

Lemma digit_not_minus c : is_digit c = true -> Ascii.eqb c "-" = false.
Proof.
  intros H. destruct (Ascii.eqb_spec c "-"%char) as [->|]; [discriminate|reflexivity].
Qed.

Lemma digit_not_plus c : is_digit c = true -> Ascii.eqb c "+" = false.
Proof.
  intros H. destruct (Ascii.eqb_spec c "+"%char) as [->|]; [discriminate|reflexivity].
Qed.

Lemma trim_start_dot w rest :
  forallb is_digit w = true -> w <> [] ->
  trim_start (w ++ "."%char :: rest) = keep1 w ++ "."%char :: rest.
Proof.
  induction w as [|c w IH]; intros Hd Hne; [congruence|].
  cbn [forallb] in Hd. apply andb_true_iff in Hd. destruct Hd as [Hc Hw].
  destruct w as [|c' w'].
  - cbn. rewrite andb_false_r. reflexivity.
  - cbn [app trim_start keep1].
    pose proof Hw as Hw'. cbn [forallb] in Hw'.
    apply andb_true_iff in Hw'. destruct Hw' as [Hc' _].
    rewrite (digit_not_dot c' Hc'). cbn [negb]. rewrite andb_true_r.
    destruct (is_zero c); [|reflexivity].
    apply (IH Hw). discriminate.
Qed.

Lemma rev_nonempty {A} (l : list A) : l <> [] -> rev l <> [].
Proof.
  intros H R. apply (f_equal (@rev A)) in R.
  rewrite rev_involutive in R. cbn in R. congruence.
Qed.

Lemma forallb_rev_eq {A} (p : A -> bool) (l : list A) :
  forallb p (rev l) = forallb p l.
Proof.
  induction l as [|a l IH]; [reflexivity|].
  cbn [rev forallb]. rewrite forallb_app, IH. cbn [forallb].
  rewrite andb_true_r. apply andb_comm.
Qed.

Lemma trim_end_dot x f :
  forallb is_digit f = true -> f <> [] ->
  trim_end (x ++ "."%char :: f) = x ++ "."%char :: strip_end f.
Proof.
  intros Hd Hne. unfold trim_end, strip_end.
  rewrite rev_app_distr. cbn [rev]. rewrite <- app_assoc. cbn [app].
  rewrite trim_start_dot.
  - rewrite rev_app_distr. cbn [rev]. rewrite rev_involutive, <- app_assoc.
    reflexivity.
  - rewrite forallb_rev_eq. exact Hd.
  - apply rev_nonempty. exact Hne.
Qed.

Lemma Zeros_zeros : Zeros = zeros 128.
Proof. reflexivity. Qed.

Lemma pad_start_spec fuel : forall str decimals,
  (decimals < fuel + length str)%nat ->
  exists k, pad_start fuel str decimals = zeros k ++ str
            /\ (decimals < k + length str)%nat.
Proof.
  induction fuel as [|fuel IH]; intros str decimals H.
  - exists 0%nat. split; [reflexivity|lia].
  - cbn [pad_start]. destruct (Nat.leb_spec (length str) decimals) as [Hle|Hgt].
    + rewrite Zeros_zeros.
      destruct (IH (zeros 128 ++ str) decimals) as [k [Hk Hl]].
      { rewrite length_app, zeros_length. lia. }
      exists (k + 128)%nat. rewrite Hk. split.
      * rewrite app_assoc, zeros_app. reflexivity.
      * rewrite length_app, zeros_length in Hl. lia.
    + exists 0%nat. split; [reflexivity|lia].
Qed.

Lemma pad_end_spec fuel : forall decimal decimals,
  (decimals <= fuel + length decimal)%nat ->
  exists k, pad_end fuel decimal decimals = decimal ++ zeros k
            /\ (decimals <= length decimal + k)%nat.
Proof.
  induction fuel as [|fuel IH]; intros decimal decimals H.
  - exists 0%nat. split; [symmetry; apply app_nil_r|lia].
  - cbn [pad_end]. destruct (Nat.ltb_spec (length decimal) decimals) as [Hlt|Hge].
    + rewrite Zeros_zeros.
      destruct (IH (decimal ++ zeros 128) decimals) as [k [Hk Hl]].
      { rewrite length_app, zeros_length. lia. }
      exists (128 + k)%nat. rewrite Hk. split.
      * rewrite <- app_assoc, zeros_app. reflexivity.
      * rewrite length_app, zeros_length in Hl. lia.
    + exists 0%nat. split; [symmetry; apply app_nil_r|lia].
Qed.

Lemma skipn_zeros n : forall k, skipn n (zeros k) = zeros (k - n).
Proof.
  induction n as [|n IH]; intros k.
  - rewrite Nat.sub_0_r. reflexivity.
  - destruct k as [|k]; [reflexivity|]. cbn [zeros repeat skipn]. apply IH.
Qed.

Lemma firstn_zeros n : forall k, firstn n (zeros k) = zeros (Nat.min n k).
Proof.
  induction n as [|n IH]; intros k; [reflexivity|].
  destruct k as [|k]; [reflexivity|].
  cbn [zeros repeat firstn Nat.min]. f_equal. apply IH.
Qed.

(** What [fromString] keeps of the padded fraction. *)
Lemma padded_fraction f k decimals :
  (decimals <= length f + k)%nat ->
  forallb is_zero (skipn decimals (f ++ zeros k))
  = forallb is_zero (skipn decimals f)
  /\ firstn decimals (f ++ zeros k)
     = firstn decimals f ++ zeros (decimals - length f).
Proof.
  intros H. rewrite skipn_app, firstn_app, forallb_app. split.
  - rewrite skipn_zeros, forallb_zeros. apply andb_true_r.
  - f_equal. rewrite firstn_zeros. f_equal. lia.
Qed.

(** *** [fromString] on a string with a decimal point *)

Lemma span_digits_dot w rest :
  forallb is_digit w = true ->
  span_digits (w ++ "."%char :: rest) = (w, "."%char :: rest).
Proof.
  induction w as [|c w IH]; intros H; [reflexivity|].
  cbn [forallb] in H. apply andb_true_iff in H. destruct H as [Hc Hw].
  cbn [app span_digits]. rewrite Hc, (IH Hw). reflexivity.
Qed.

Lemma match_fixed_dotted neg w f :
  forallb is_digit w = true -> forallb is_digit f = true ->
  match_fixed (sign_chars neg ++ w ++ "."%char :: f)
  = Some (sign_chars neg, w, f).
Proof.
  intros Hw Hf. unfold match_fixed.
  assert (E : split_sign (sign_chars neg ++ w ++ "."%char :: f)
              = (sign_chars neg, w ++ "."%char :: f)).
  { destruct neg; [reflexivity|]. cbn [sign_chars app].
    destruct w as [|c w']; [reflexivity|].
    cbn [forallb] in Hw. apply andb_true_iff in Hw. destruct Hw as [Hc _].
    cbn [app split_sign]. rewrite (digit_not_minus c Hc). reflexivity. }
  rewrite E, span_digits_dot by assumption.
  cbn [skip_dot]. change (Ascii.eqb "." ".") with true. cbn iota.
  rewrite Hf. reflexivity.
Qed.

Lemma StringToBigInt_signed neg ds :
  forallb is_digit ds = true -> ds <> [] ->
  StringToBigInt (sign_chars neg ++ ds)
  = Some (if neg then - digits_value ds else digits_value ds).
Proof.
  intros Hd Hne. destruct ds as [|c ds']; [congruence|].
  destruct neg.
  - cbn [sign_chars app StringToBigInt].
    change (Ascii.eqb "-" "-") with true. cbn iota. rewrite Hd. reflexivity.
  - cbn [sign_chars app StringToBigInt].
    pose proof Hd as Hd'. cbn [forallb] in Hd'.
    apply andb_true_iff in Hd'. destruct Hd' as [Hc _].
    rewrite (digit_not_minus c Hc), (digit_not_plus c Hc). cbn iota.
    rewrite Hd. reflexivity.
Qed.

Lemma format_ok_512 decimals :
  (decimals <= 80)%nat -> format_ok decimals 512 = true.
Proof.
  intros H. unfold format_ok. apply andb_true_iff. split; [reflexivity|].
  apply Nat.leb_le. exact H.
Qed.

Lemma fromString_dotted neg w f decimals width :
  format_ok decimals width = true ->
  forallb is_digit w = true -> forallb is_digit f = true ->
  (0 < length w + length f)%nat ->
  fromString (dotted neg w f) decimals width
  = if forallb is_zero (skipn decimals f)
    then if in_range width (scaled neg w f decimals)
         then Normal (scaled neg w f decimals)
         else Throw (NUMERIC_FAULT "overflow")
    else Throw (NUMERIC_FAULT "too many decimals for format").
Proof.
  intros Hfmt Hw Hf Hlen. unfold fromString, dotted.
  rewrite list_ascii_of_string_of_list_ascii, match_fixed_dotted by assumption.
  destruct (Nat.eqb_spec (length w + length f) 0) as [E|_]; [lia|].
  rewrite Hfmt. cbn [negb].
  destruct (pad_end_spec decimals f decimals ltac:(lia)) as [k [Hk Hl]].
  rewrite Hk.
  destruct (padded_fraction f k decimals Hl) as [Hskip Hfirst].
  rewrite Hskip, Hfirst.
  destruct (forallb is_zero (skipn decimals f)); [|reflexivity].
  set (whole := match w with [] => ["0"%char] | _ :: _ => w end).
  set (frac := firstn decimals f ++ zeros (decimals - length f)).
  assert (Hwd : forallb is_digit whole = true).
  { subst whole. destruct w; [reflexivity|assumption]. }
  assert (Hwne : whole <> []).
  { subst whole. destruct w; discriminate. }
  assert (Hfd : forallb is_digit frac = true).
  { subst frac. rewrite forallb_app, forallb_zeros_digit, andb_true_r.
    rewrite <- (firstn_skipn decimals f), forallb_app in Hf.
    apply andb_true_iff in Hf. tauto. }
  rewrite StringToBigInt_signed.
  - assert (Hv : digits_value (whole ++ frac) = digits_value (w ++ frac)).
    { subst whole. destruct w; [|reflexivity].
      change ["0"%char] with (zeros 1). apply digits_value_zeros_app. }
    rewrite Hv. fold (scaled neg w f decimals). reflexivity.
  - rewrite forallb_app, Hwd, Hfd. reflexivity.
  - intros E. apply app_eq_nil in E. tauto.
Qed.

(** *** The shape of [toString] *)

(** [toString] pads the digits of the magnitude, cuts the last
    [decimals] of them off as the fraction and trims both sides. *)
Lemma toString_padded val decimals :
  (0 < decimals)%nat ->
  exists k,
    let p := zeros k ++ digits_of (Z.abs val) in
    (decimals < length p)%nat
    /\ toString val decimals
       = sign_chars (val <? 0)
         ++ keep1 (firstn (length p - decimals) p)
         ++ "."%char :: strip_end (skipn (length p - decimals) p).
Proof.
  intros Hd. unfold toString.
  destruct (Nat.eqb_spec decimals 0) as [E|_]; [lia|].
  set (a := if val <? 0 then val * -1 else val).
  assert (Ha : a = Z.abs val /\ 0 <= a).
  { subst a. destruct (Z.ltb_spec val 0); lia. }
  destruct Ha as [Ha Ha0]. rewrite <- Ha.
  unfold bigint_toString. destruct (Z.ltb_spec a 0) as [Hneg|_]; [lia|].
  destruct (digits_of_spec a Ha0) as (Hdig & Hval & Hne).
  destruct (pad_start_spec (S decimals) (digits_of a) decimals ltac:(lia))
    as [k [Hk Hl]].
  exists k. rewrite Hk. cbv zeta. set (p := zeros k ++ digits_of a).
  assert (Hp : forallb is_digit p = true).
  { subst p. rewrite forallb_app, forallb_zeros_digit, Hdig. reflexivity. }
  assert (Hlp : (decimals < length p)%nat).
  { subst p. rewrite length_app, zeros_length. exact Hl. }
  split; [exact Hlp|].
  set (index := (length p - decimals)%nat).
  assert (Hsplit : forallb is_digit (firstn index p) = true
                   /\ forallb is_digit (skipn index p) = true).
  { rewrite <- (firstn_skipn index p), forallb_app in Hp.
    apply andb_true_iff in Hp. exact Hp. }
  destruct Hsplit as [Hw Hf].
  assert (Hwne : firstn index p <> []).
  { intros E. apply (f_equal (@length ascii)) in E.
    rewrite length_firstn in E. cbn in E. subst index. lia. }
  assert (Hfne : skipn index p <> []).
  { intros E. apply (f_equal (@length ascii)) in E.
    rewrite length_skipn in E. cbn in E. subst index. lia. }
  rewrite trim_start_dot, trim_end_dot by assumption.
  destruct (val <? 0); reflexivity.
Qed.

Lemma toString_shape val decimals :
  (0 < decimals)%nat ->
  exists w f,
    toString val decimals
    = sign_chars (val <? 0) ++ keep1 w ++ "."%char :: strip_end f
    /\ forallb is_digit w = true /\ w <> []
    /\ forallb is_digit f = true /\ length f = decimals
    /\ digits_value (w ++ f) = Z.abs val.
Proof.
  intros Hd. destruct (toString_padded val decimals Hd) as [k [Hlp Hts]].
  cbv zeta in Hlp, Hts. set (p := zeros k ++ digits_of (Z.abs val)) in *.
  destruct (digits_of_spec (Z.abs val) (Z.abs_nonneg val)) as (Hdig & Hval & Hne).
  assert (Hp : forallb is_digit p = true).
  { subst p. rewrite forallb_app, forallb_zeros_digit, Hdig. reflexivity. }
  set (index := (length p - decimals)%nat) in *.
  exists (firstn index p), (skipn index p).
  rewrite <- (firstn_skipn index p), forallb_app in Hp.
  apply andb_true_iff in Hp. destruct Hp as [Hw Hf].
  repeat split; try assumption.
  - intros E. apply (f_equal (@length ascii)) in E.
    rewrite length_firstn in E. cbn in E. subst index. lia.
  - rewrite length_skipn. subst index. lia.
  - rewrite firstn_skipn. subst p.
    rewrite digits_value_zeros_app. exact Hval.
Qed.

(** *** Parsing what [formatUnits] printed *)

Lemma in_range_opp_abs width v :
  in_range width v = true ->
  (if v <? 0 then - Z.abs v else Z.abs v) = v.
Proof. intros _. destruct (Z.ltb_spec v 0); lia. Qed.

Lemma parse_format v decimals :
  (0 < decimals <= 80)%nat -> in_range 512 v = true ->
  exists s, formatUnits v decimals = Normal s
            /\ parseUnits s decimals = Normal v.
Proof.
  intros [Hd Hd80] Hr. unfold formatUnits, fromValue_toString.
  rewrite (format_ok_512 decimals Hd80), Hr. cbn [negb].
  eexists. split; [reflexivity|].
  destruct (toString_shape v decimals Hd)
    as (w & f & Hts & Hw & Hwne & Hf & Hlen & Hval).
  rewrite Hts. fold (dotted (v <? 0) (keep1 w) (strip_end f)).
  unfold parseUnits.
  pose proof (strip_end_length f) as Hsl.
  destruct (strip_end_zeros f) as [k Hk].
  assert (Hkk : k = (decimals - length (strip_end f))%nat).
  { apply (f_equal (@length ascii)) in Hk.
    rewrite length_app, zeros_length in Hk. lia. }
  rewrite fromString_dotted.
  2: apply format_ok_512; assumption.
  - rewrite skipn_all2 by lia. cbn [forallb].
    assert (Hs : scaled (v <? 0) (keep1 w) (strip_end f) decimals = v).
    { unfold scaled. rewrite firstn_all2 by lia.
      rewrite <- Hkk, <- Hk.
      rewrite digits_value_app, keep1_value, <- digits_value_app, Hval.
      eapply in_range_opp_abs; eassumption. }
    rewrite Hs, Hr. reflexivity.
  - apply keep1_digits; assumption.
  - apply strip_end_digits; assumption.
  - pose proof (keep1_nonempty w Hwne).
    destruct (keep1 w); [congruence|cbn; lia].
Qed.

(** *** Printing what [parseUnits] read *)

(** The cut of [toString] does not see leading zeros. *)
Lemma cut_zeros decimals x : forall j,
  (decimals < length x)%nat ->
  let y := zeros j ++ x in
  keep1 (firstn (length y - decimals) y) = keep1 (firstn (length x - decimals) x)
  /\ skipn (length y - decimals) y = skipn (length x - decimals) x.
Proof.
  intros j Hx. cbv zeta.
  rewrite length_app, zeros_length.
  replace (j + length x - decimals)%nat with (j + (length x - decimals))%nat by lia.
  set (m := (length x - decimals)%nat).
  assert (Hm : (0 < m)%nat) by (subst m; lia).
  split.
  - rewrite firstn_app, zeros_length, firstn_zeros.
    replace (Nat.min (j + m) j) with j by lia.
    replace (j + m - j)%nat with m by lia.
    apply keep1_zeros_app.
    intros E. apply (f_equal (@length ascii)) in E.
    rewrite length_firstn in E. cbn in E. subst m. lia.
  - rewrite skipn_app, zeros_length, skipn_zeros.
    replace (j - (j + m))%nat with 0%nat by lia.
    replace (j + m - j)%nat with m by lia. reflexivity.
Qed.

Lemma cut_same_core decimals c i k :
  (decimals < i + length c)%nat -> (decimals < k + length c)%nat ->
  let x := zeros i ++ c in
  let y := zeros k ++ c in
  keep1 (firstn (length y - decimals) y) = keep1 (firstn (length x - decimals) x)
  /\ skipn (length y - decimals) y = skipn (length x - decimals) x.
Proof.
  intros Hi Hk. cbv zeta.
  destruct (Nat.le_gt_cases i k) as [Hle|Hgt].
  - replace k with ((k - i) + i)%nat by lia.
    rewrite <- zeros_app, <- app_assoc.
    apply (cut_zeros decimals (zeros i ++ c) (k - i)).
    rewrite length_app, zeros_length. lia.
  - replace i with ((i - k) + k)%nat by lia.
    rewrite <- zeros_app, <- app_assoc.
    destruct (cut_zeros decimals (zeros k ++ c) (i - k)) as [H1 H2].
    { rewrite length_app, zeros_length. lia. }
    cbv zeta in H1, H2. split; symmetry; assumption.
Qed.

Lemma format_parse decimals neg w f :
  (0 < decimals <= 80)%nat ->
  canonical decimals neg w f ->
  in_range 512 (scaled neg w f decimals) = true ->
  parseUnits (dotted neg w f) decimals = Normal (scaled neg w f decimals)
  /\ formatUnits (scaled neg w f decimals) decimals = Normal (dotted neg w f).
Proof.
  intros [Hd Hd80] [Hw Hf [Hwne Hwk] [Hfne Hfs] Hfl Hsg] Hr.
  pose proof (format_ok_512 decimals Hd80) as Hfmt.
  assert (Hp : parseUnits (dotted neg w f) decimals
               = Normal (scaled neg w f decimals)).
  { unfold parseUnits. rewrite fromString_dotted; try assumption.
    - rewrite skipn_all2 by lia. cbn [forallb]. rewrite Hr. reflexivity.
    - destruct w; [congruence|cbn; lia]. }
  split; [exact Hp|].
  unfold formatUnits, fromValue_toString. rewrite Hfmt, Hr. cbn [negb]. f_equal.
  unfold dotted. f_equal.
  set (fpad := f ++ zeros (decimals - length f)).
  set (n := w ++ fpad).
  assert (Hfpl : length fpad = decimals).
  { subst fpad. rewrite length_app, zeros_length. lia. }
  assert (Hnd : forallb is_digit n = true).
  { subst n fpad. rewrite !forallb_app, Hw, Hf, forallb_zeros_digit. reflexivity. }
  assert (Hnne : n <> []).
  { subst n. intros E. apply app_eq_nil in E. tauto. }
  assert (Hsc : scaled neg w f decimals
                = if neg then - digits_value n else digits_value n).
  { unfold scaled. rewrite firstn_all2 by lia. reflexivity. }
  pose proof (digits_value_bounds n Hnd) as [Hn0 _].
  assert (Hnz : neg = true -> digits_value n <> 0).
  { intros Hneg. specialize (Hsg Hneg). subst n fpad.
    rewrite app_assoc, digits_value_app_zeros.
    pose proof (Z.pow_pos_nonneg 10 (Z.of_nat (decimals - length f))
                  ltac:(lia) ltac:(lia)).
    nia. }
  assert (Habs : Z.abs (scaled neg w f decimals) = digits_value n).
  { rewrite Hsc. destruct neg; lia. }
  assert (Hneg : (scaled neg w f decimals <? 0) = neg).
  { rewrite Hsc. destruct neg.
    - specialize (Hnz eq_refl). apply Z.ltb_lt. lia.
    - apply Z.ltb_ge. lia. }
  destruct (toString_padded (scaled neg w f decimals) decimals Hd)
    as [k [Hlp Hts]].
  cbv zeta in Hlp, Hts. rewrite Hts, Hneg, Habs. clear Hts.
  rewrite Habs in Hlp.
  destruct (digits_canon n Hnd Hnne) as [i Hi].
  assert (Hli : (decimals < i + length (digits_of (digits_value n)))%nat).
  { apply (f_equal (@length ascii)) in Hi.
    rewrite length_app, zeros_length in Hi. rewrite <- Hi.
    subst n. rewrite length_app, Hfpl. destruct w; [congruence|cbn; lia]. }
  rewrite length_app, zeros_length in Hlp.
  destruct (cut_same_core decimals (digits_of (digits_value n)) i k Hli Hlp)
    as [Hc1 Hc2].
  cbv zeta in Hc1, Hc2. rewrite Hc1, Hc2, <- Hi.
  assert (Hcut : (length n - decimals)%nat = length w).
  { subst n. rewrite length_app, Hfpl. lia. }
  rewrite Hcut. subst n.
  rewrite firstn_app, Nat.sub_diag, firstn_all, firstn_0, app_nil_r.
  rewrite skipn_app, Nat.sub_diag, skipn_all, skipn_0. cbn [app].
  rewrite Hwk. subst fpad. rewrite strip_end_app_zeros, Hfs by assumption.
  reflexivity.
Qed.

(** *** Canonical decimal strings, decided *)

Lemma no_extra_zero_keep1 w : no_extra_zero w = true -> keep1 w = w.
Proof.
  destruct w as [|c [|c' r]]; try reflexivity.
  cbn [no_extra_zero keep1]. intros H. apply negb_true_iff in H.
  rewrite H. reflexivity.
Qed.

Lemma keep1_no_extra_zero w : no_extra_zero (keep1 w) = true.
Proof.
  induction w as [|c w IH]; [reflexivity|].
  destruct w as [|c' r]; [reflexivity|].
  cbn [keep1]. destruct (is_zero c) eqn:E; [exact IH|].
  cbn [no_extra_zero]. rewrite E. reflexivity.
Qed.

Lemma canonicalb_sound decimals neg w f :
  canonicalb decimals neg w f = true -> canonical decimals neg w f.
Proof.
  unfold canonicalb. rewrite !andb_true_iff.
  intros [[[[[[[Hw Hf] Hwn] Hwz] Hfn] Hfz] Hl] Hs].
  constructor; try assumption.
  - split; [destruct w; [discriminate|discriminate]|].
    apply no_extra_zero_keep1; assumption.
  - split; [destruct f; [discriminate|discriminate]|].
    unfold strip_end. rewrite no_extra_zero_keep1 by assumption.
    apply rev_involutive.
  - apply Nat.leb_le. assumption.
  - intros ->. cbn in Hs. apply negb_true_iff, Z.eqb_neq in Hs. assumption.
Qed.

Lemma split_sign_spec s sign r :
  split_sign s = (sign, r) ->
  s = sign ++ r /\ sign = sign_chars (negb (is_nil sign)).
Proof.
  destruct s as [|c s']; cbn [split_sign].
  - intros E. inversion E. split; reflexivity.
  - destruct (Ascii.eqb_spec c "-"%char) as [->|_]; intros E; inversion E;
      split; reflexivity.
Qed.

Lemma span_digits_spec s : forall w r,
  span_digits s = (w, r) -> s = w ++ r /\ forallb is_digit w = true.
Proof.
  induction s as [|c s IH]; intros w r; cbn [span_digits].
  - intros E. inversion E. split; reflexivity.
  - destruct (is_digit c) eqn:Hc.
    + destruct (span_digits s) as [ds rest] eqn:Es. intros E. inversion E. subst.
      destruct (IH ds r eq_refl) as [-> Hd]. cbn [forallb app].
      rewrite Hc, Hd. split; reflexivity.
    + intros E. inversion E. split; reflexivity.
Qed.

Lemma skip_dot_spec r1 :
  r1 = skip_dot r1 \/ r1 = "."%char :: skip_dot r1.
Proof.
  destruct r1 as [|c r]; [left; reflexivity|]. cbn [skip_dot].
  destruct (Ascii.eqb_spec c "."%char) as [->|_]; [right|left]; reflexivity.
Qed.

Lemma match_fixed_inv s sign w f :
  match_fixed s = Some (sign, w, f) ->
  forallb is_digit w = true /\ forallb is_digit f = true
  /\ sign = sign_chars (negb (is_nil sign))
  /\ (s = sign ++ w ++ f \/ s = sign ++ w ++ "."%char :: f).
Proof.
  unfold match_fixed.
  destruct (split_sign s) as [sg r] eqn:Es.
  destruct (span_digits r) as [wh r1] eqn:Ew.
  destruct (forallb is_digit (skip_dot r1)) eqn:Hf; [|discriminate].
  intros E. inversion E. subst sg wh f. clear E.
  destruct (split_sign_spec _ _ _ Es) as [-> Hsg].
  destruct (span_digits_spec _ _ _ Ew) as [-> Hw].
  repeat split; try assumption.
  destruct (skip_dot_spec r1) as [E|E]; [left|right]; do 2 f_equal; exact E.
Qed.

Lemma no_dot_in_digits w :
  forallb is_digit w = true -> existsb (Ascii.eqb ".") w = false.
Proof.
  induction w as [|c w IH]; [reflexivity|].
  cbn [forallb existsb]. rewrite andb_true_iff. intros [Hc Hw].
  rewrite (IH Hw), orb_false_r.
  destruct (Ascii.eqb_spec "."%char c) as [<-|]; [discriminate|reflexivity].
Qed.

Lemma canonical_decimal_dotted decimals d :
  canonical_decimal decimals d = true <->
  exists neg w f, d = dotted neg w f /\ canonicalb decimals neg w f = true.
Proof.
  unfold canonical_decimal. split.
  - destruct (match_fixed (list_ascii_of_string d)) as [[[sign w] f]|] eqn:Em;
      [|discriminate].
    rewrite andb_true_iff. intros [Hdot Hc].
    destruct (match_fixed_inv _ _ _ _ Em) as (Hw & Hf & Hsg & [E|E]).
    + exfalso. rewrite E, Hsg, !existsb_app in Hdot.
      rewrite (no_dot_in_digits w Hw), (no_dot_in_digits f Hf) in Hdot.
      destruct (negb (is_nil sign)); discriminate.
    + exists (negb (is_nil sign)), w, f. split; [|exact Hc].
      unfold dotted. rewrite <- Hsg, <- E.
      symmetry. apply string_of_list_ascii_of_string.
  - intros (neg & w & f & -> & Hc).
    pose proof Hc as Hc'. unfold canonicalb in Hc'.
    rewrite !andb_true_iff in Hc'.
    destruct Hc' as [[[[[[[Hw Hf] _] _] _] _] _] _].
    unfold dotted. rewrite list_ascii_of_string_of_list_ascii.
    rewrite match_fixed_dotted by assumption.
    rewrite !existsb_app. cbn [existsb].
    change (Ascii.eqb "." ".") with true.
    rewrite orb_true_l, !orb_true_r. cbn [andb].
    destruct neg; exact Hc.
Qed.

(** Whatever [formatUnits] prints is canonical. *)
Lemma formatUnits_canonical v decimals s :
  (0 < decimals)%nat ->
  formatUnits v decimals = Normal s -> canonical_decimal decimals s = true.
Proof.
  intros Hd. unfold formatUnits, fromValue_toString.
  destruct (negb (format_ok decimals 512)); [discriminate|].
  destruct (in_range 512 v); [|discriminate].
  intros E. inversion E. clear E. subst s.
  destruct (toString_shape v decimals Hd)
    as (w & f & Hts & Hw & Hwne & Hf & Hlen & Hval).
  apply canonical_decimal_dotted.
  exists (v <? 0), (keep1 w), (strip_end f). split.
  - unfold dotted. rewrite Hts. reflexivity.
  - unfold canonicalb. rewrite !andb_true_iff. repeat split.
    + apply keep1_digits; assumption.
    + apply strip_end_digits; assumption.
    + pose proof (keep1_nonempty w Hwne). destruct (keep1 w); [congruence|reflexivity].
    + apply keep1_no_extra_zero.
    + assert (Hfne : f <> []) by (destruct f; [cbn in Hlen; lia|discriminate]).
      pose proof (strip_end_nonempty f Hfne).
      destruct (strip_end f); [congruence|reflexivity].
    + unfold strip_end. rewrite rev_involutive. apply keep1_no_extra_zero.
    + apply Nat.leb_le. pose proof (strip_end_length f). lia.
    + destruct (Z.ltb_spec v 0) as [Hneg|_]; [|reflexivity].
      cbn [implb]. apply negb_true_iff, Z.eqb_neq.
      destruct (strip_end_zeros f) as [k Hk].
      remember (strip_end f) as se eqn:Ese. intros Hz.
      assert (Hv2 : digits_value (w ++ f)
                    = digits_value (keep1 w ++ se) * 10 ^ Z.of_nat k).
      { rewrite Hk, app_assoc, digits_value_app_zeros. f_equal.
        rewrite !digits_value_app, keep1_value. reflexivity. }
      rewrite Hz in Hv2. lia.
Qed.

(** What [parseUnits] returns fits the 512-bit format. *)
Lemma parseUnits_in_range d decimals v :
  parseUnits d decimals = Normal v -> in_range 512 v = true.
Proof.
  unfold parseUnits, fromString.
  destruct (match_fixed (list_ascii_of_string d)) as [[[sign m2] m3]|];
    [|discriminate].
  destruct (length m2 + length m3 =? 0)%nat; [discriminate|].
  destruct (negb (format_ok decimals 512)); [discriminate|].
  destruct (forallb is_zero _); [|discriminate].
  destruct (StringToBigInt _) as [z|]; [|discriminate].
  destruct (in_range 512 z) eqn:Hr; [|discriminate].
  intros E. inversion E. subst. exact Hr.
Qed.

(** The round trip of a parsed string gives the string back exactly when
    the string is canonical. *)
Lemma roundtrip_iff_canonical decimals d v :
  (0 < decimals <= 80)%nat ->
  parseUnits d decimals = Normal v ->
  (formatUnits v decimals = Normal d <-> canonical_decimal decimals d = true).
Proof.
  intros Hd Hp. split.
  - apply formatUnits_canonical. apply Hd.
  - intros Hc. apply canonical_decimal_dotted in Hc.
    destruct Hc as (neg & w & f & -> & Hc).
    pose proof (canonicalb_sound _ _ _ _ Hc) as Hcan.
    assert (Hr : in_range 512 (scaled neg w f decimals) = true
                 /\ v = scaled neg w f decimals).
    { destruct Hcan as [Hw Hf [Hwne _] _ Hfl _].
      unfold parseUnits in Hp. rewrite fromString_dotted in Hp; try assumption.
      2: apply format_ok_512; apply Hd.
      - rewrite skipn_all2 in Hp by lia. cbn [forallb] in Hp.
        destruct (in_range 512 (scaled neg w f decimals)); [|discriminate].
        inversion Hp. split; reflexivity.
      - destruct w; [congruence|cbn; lia]. }
    destruct Hr as [Hr ->].
    apply (format_parse decimals neg w f Hd Hcan Hr).
Qed.

End EthersFacts.

(* ===================================================================== *)
(** ** Unit conversion at the adapter's boundary *)
(* ===================================================================== *)

Module Conversion.
Import JS Ethers Adapter Decimal Spec DigitFacts EthersFacts.

Section Boundary.
Context {chain tx filter log : Type}.
Variable backend : Backend chain tx filter log.

Lemma getAssetValueInUSD_echo token d v (w : @world chain tx filter) :
  echoes backend token -> parseUnits d 18 = Normal v ->
  fst (getAssetValueInUSD backend token d w) = formatUnits v 18.
Proof.
  intros He Hp. unfold getAssetValueInUSD, bind, eval, view, perform.
  rewrite Hp, He. reflexivity.
Qed.

(** An amount that does not parse stops the method before any request. *)
Lemma amount_fault_stops {A} amount e
    (k : Z -> @M chain tx filter A) (w : @world chain tx filter) :
  parseUnits amount 18 = Throw e ->
  bind (eval (parseUnits amount 18)) k w = (Throw e, w).
Proof. intros Hp. unfold bind, eval. rewrite Hp. reflexivity. Qed.

End Boundary.

(** C1 (amended).  Against a contract that echoes its input, a decimal
    string that parses comes back unchanged from the conversion to the
    10^18 fixed-point integer and back exactly when it is in the form the
    conversion to decimal prints: a minus sign only before a non-zero
    value, a whole part without a superfluous leading zero, a dot, and one
    to eighteen fractional digits without a superfluous trailing zero.
    This holds for the two conversions alone and for [getAssetValueInUSD].
    In every case the string that comes back is canonical and scales to
    the same integer: the value is kept, the spelling is normalised. *)
Theorem roundtrip_canonical
    {chain tx filter log : Type} (backend : Backend chain tx filter log)
    (token d : string) (v : Z) (w : @world chain tx filter) :
  echoes backend token ->
  parseUnits d 18 = Normal v ->
  (exists d', formatUnits v 18 = Normal d'
              /\ canonical_decimal 18 d' = true
              /\ parseUnits d' 18 = Normal v)
  /\ (formatUnits v 18 = Normal d <-> canonical_decimal 18 d = true)
  /\ (fst (getAssetValueInUSD backend token d w) = Normal d
      <-> canonical_decimal 18 d = true).
Proof.
  intros He Hp.
  pose proof (roundtrip_iff_canonical 18 d v ltac:(lia) Hp) as Hiff.
  split; [|split; [exact Hiff|]].
  - destruct (parse_format v 18 ltac:(lia) (parseUnits_in_range d 18 v Hp))
      as (d' & Hf & Hp').
    exists d'. repeat split; try assumption.
    apply (formatUnits_canonical v 18 d' ltac:(lia) Hf).
  - rewrite (getAssetValueInUSD_echo backend token d v w He Hp). exact Hiff.
Qed.

Lemma roundtrip_canonical_witness :
  (exists d', formatUnits 1500000000000000000 18 = Normal d'
              /\ canonical_decimal 18 d' = true
              /\ parseUnits d' 18 = Normal 1500000000000000000)
  /\ (formatUnits 1500000000000000000 18 = Normal "1.5"%string
      <-> canonical_decimal 18 "1.5" = true)
  /\ (fst (getAssetValueInUSD Mock.echo "0xDA1" "1.5" Mock.w0) = Normal "1.5"%string
      <-> canonical_decimal 18 "1.5" = true).
Proof.
  apply (roundtrip_canonical Mock.echo "0xDA1" "1.5" 1500000000000000000 Mock.w0).
  - intros a st. reflexivity.
  - vm_compute. reflexivity.
Defined.

(** C1 as stated fails: "5" has no fractional digit, scales to 5 * 10^18
    and comes back as "5.0". *)
Lemma roundtrip_plain_integer_counterexample :
  fractional_digits "5" = Some 0%nat
  /\ parseUnits "5" 18 = Normal 5000000000000000000
  /\ formatUnits 5000000000000000000 18 = Normal "5.0"%string
  /\ fst (getAssetValueInUSD Mock.echo "0xDA1" "5" Mock.w0) <> Normal "5"%string.
Proof.
  repeat split; try (vm_compute; reflexivity).
  vm_compute. discriminate.
Qed.

(** C5 (amended).  An amount with more than eighteen fractional digits is
    not truncated.  When a digit past the eighteenth is not zero,
    [parseUnits] throws a numeric fault and every amount-taking method
    rejects with it before anything is sent to the contract.  When all
    the digits past the eighteenth are zeros they are dropped, which loses
    nothing: the scaled integer times the dropped power of ten is the
    integer the digits spell. *)
Theorem excess_precision_rejected
    {chain tx filter log : Type} (backend : Backend chain tx filter log)
    (neg : bool) (whole frac : chars) (w : @world chain tx filter) :
  forallb is_digit whole = true -> forallb is_digit frac = true ->
  (18 < length frac)%nat ->
  let d := dotted neg whole frac in
  let e := NUMERIC_FAULT "too many decimals for format" in
  (forallb is_zero (skipn 18 frac) = false ->
     parseUnits d 18 = Throw e
     /\ (forall token, getAssetValueInUSD backend token d w = (Throw e, w))
     /\ (forall token, depositCollateral backend token d w = (Throw e, w))
     /\ (forall token t, borrowAsset backend token d t w = (Throw e, w))
     /\ (forall token, repayLoan backend token d w = (Throw e, w))
     /\ (forall u b c, liquidatePosition backend u b c d w = (Throw e, w))
     /\ (forall token t, addLiquidity backend token d t w = (Throw e, w))
     /\ (forall a b, rebalancePortfolio backend a b d w = (Throw e, w)))
  /\ (forallb is_zero (skipn 18 frac) = true ->
      in_range 512 (scaled neg whole frac 18) = true ->
      parseUnits d 18 = Normal (scaled neg whole frac 18)
      /\ scaled neg whole frac 18 * 10 ^ Z.of_nat (length frac - 18)
         = (if neg then - digits_value (whole ++ frac)
            else digits_value (whole ++ frac))).
Proof.
  intros Hw Hf Hlen d e.
  assert (Hp : parseUnits d 18
               = if forallb is_zero (skipn 18 frac)
                 then if in_range 512 (scaled neg whole frac 18)
                      then Normal (scaled neg whole frac 18)
                      else Throw (NUMERIC_FAULT "overflow")
                 else Throw e).
  { unfold parseUnits, d. apply fromString_dotted; try assumption;
      [reflexivity|lia]. }
  split.
  - intros Hnz. rewrite Hnz in Hp. split; [exact Hp|].
    repeat split; intros;
      first [ unfold getAssetValueInUSD | unfold depositCollateral
            | unfold borrowAsset | unfold repayLoan | unfold liquidatePosition
            | unfold addLiquidity | unfold rebalancePortfolio ];
      apply amount_fault_stops; exact Hp.
  - intros Hz Hr. rewrite Hz, Hr in Hp. split; [exact Hp|].
    unfold scaled.
    replace (18 - length frac)%nat with 0%nat by lia.
    cbn [zeros repeat]. rewrite app_nil_r.
    apply forallb_is_zero_zeros in Hz. rewrite length_skipn in Hz.
    assert (E : whole ++ frac = (whole ++ firstn 18 frac) ++ zeros (length frac - 18)).
    { rewrite <- app_assoc, <- Hz, firstn_skipn. reflexivity. }
    rewrite E, digits_value_app_zeros. destruct neg; ring.
Qed.

Lemma excess_precision_rejected_witness :
  parseUnits "0.1234567890123456789" 18
  = Throw (NUMERIC_FAULT "too many decimals for format")
  /\ depositCollateral Mock.echo "0xDA1" "0.1234567890123456789" Mock.w0
     = (Throw (NUMERIC_FAULT "too many decimals for format"), Mock.w0).
Proof.
  destruct (excess_precision_rejected Mock.echo false
              (list_ascii_of_string "0")
              (list_ascii_of_string "1234567890123456789") Mock.w0
              eq_refl eq_refl ltac:(vm_compute; lia)) as [Hthrow _].
  destruct (Hthrow eq_refl) as (Hp & _ & Hd & _).
  split; [exact Hp|exact (Hd "0xDA1"%string)].
Defined.

(** C5 as stated fails: nineteen fractional digits, the last one not
    zero.  Truncation would send 123456789012345678; the method rejects
    and sends nothing. *)
Lemma excess_precision_not_truncated :
  fractional_digits "0.1234567890123456789" = Some 19%nat
  /\ scaled false (list_ascii_of_string "0")
       (list_ascii_of_string "1234567890123456789") 18 = 123456789012345678
  /\ parseUnits "0.1234567890123456789" 18
     = Throw (NUMERIC_FAULT "too many decimals for format")
  /\ depositCollateral Mock.echo "0xDA1" "0.1234567890123456789" Mock.w0
     = (Throw (NUMERIC_FAULT "too many decimals for format"), Mock.w0).
Proof. repeat split; vm_compute; reflexivity. Qed.

End Conversion.

(* ===================================================================== *)
(** ** The adapter's methods *)
(* ===================================================================== *)

Module AdapterSpec.
Import JS Ethers Adapter Decimal Spec DigitFacts EthersFacts.

Lemma uint256_in_range v : uint256 v -> in_range 512 v = true.
Proof.
  unfold uint256, in_range. intros [H0 H1].
  apply andb_true_iff. split; [apply Z.leb_le|apply Z.ltb_lt].
  - assert (0 < 2 ^ (512 - 1)) by (apply Z.pow_pos_nonneg; lia). lia.
  - eapply Z.lt_le_trans; [exact H1|]. apply Z.pow_le_mono_r; lia.
Qed.

Lemma formatUnits_total v decimals :
  (decimals <= 80)%nat -> in_range 512 v = true ->
  formatUnits v decimals = Normal (string_of_list_ascii (toString v decimals)).
Proof.
  intros Hd H. unfold formatUnits, fromValue_toString.
  rewrite (format_ok_512 decimals Hd), H. reflexivity.
Qed.

(** [Number(formatUnits(v, 0))] is [Number(v)]. *)
Lemma Number_formatUnits0_spec v :
  in_range 512 v = true -> Number_formatUnits0 v = Normal (to_number v).
Proof.
  intros Hr. unfold Number_formatUnits0.
  rewrite formatUnits_total by (assumption || lia).
  rewrite list_ascii_of_string_of_list_ascii. f_equal.
  unfold toString. cbn [Nat.eqb].
  set (a := if v <? 0 then v * -1 else v).
  assert (Ha : a = Z.abs v /\ 0 <= a).
  { subst a. destruct (Z.ltb_spec v 0); lia. }
  destruct Ha as [Ha Ha0].
  unfold bigint_toString. destruct (Z.ltb_spec a 0) as [Hn|_]; [lia|].
  destruct (digits_of_spec a Ha0) as (Hd & Hv & Hne).
  change (if v <? 0 then ["-"%char] else []) with (sign_chars (v <? 0)).
  unfold Number_of_string.
  rewrite StringToBigInt_signed, Hv by assumption.
  f_equal. rewrite Ha. destruct (Z.ltb_spec v 0); lia.
Qed.

(** An integer below 2^53 is a binary64 value. *)
Lemma round_binary64_exact n : 0 <= n < 2 ^ 53 -> round_binary64 n = n.
Proof.
  intros [H0 H1]. unfold round_binary64.
  assert (Z.log2 n <= 52).
  { destruct (Z.eq_dec n 0) as [->|Hz]; [cbn; lia|].
    assert (Z.log2 n < 53) by (apply Z.log2_lt_pow2; lia). lia. }
  destruct (Z.leb_spec (Z.log2 n - 52) 0); [reflexivity|lia].
Qed.

Lemma to_number_exact z : - 2 ^ 53 < z < 2 ^ 53 -> to_number z = Finite z.
Proof.
  intros Hz. unfold to_number.
  rewrite round_binary64_exact by lia.
  destruct (Z.leb_spec (2 ^ 1024) (Z.abs z)) as [Hbig|_].
  - assert (2 ^ 53 < 2 ^ 1024) by (apply Z.pow_lt_mono_r; lia). lia.
  - f_equal. destruct (Z.ltb_spec z 0); lia.
Qed.

Section Methods.
Context {chain tx filter log : Type}.
Variable backend : Backend chain tx filter log.

(** *** [userHealthFactor] and [checkForBrokenHealthFactor] *)

Lemma userHealthFactor_cases user (w : @world chain tx filter) :
  fst (userHealthFactor backend user w)
  = match call_uint backend "userHealthFactor" [AStr user] (w_chain w) with
    | (Normal hf, _) =>
        match formatUnits hf 18 with
        | Normal s => Normal s
        | Throw _ => Normal "0"%string
        end
    | (Throw _, _) => Normal "0"%string
    end.
Proof.
  unfold userHealthFactor, try_catch, bind, eval, view, perform, console, ret.
  destruct (call_uint backend "userHealthFactor" [AStr user] (w_chain w))
    as [[hf|e] st]; cbn; [|reflexivity].
  destruct (formatUnits hf 18); reflexivity.
Qed.

End Methods.

(** C3.  [userHealthFactor] always resolves.  When the contract read
    succeeds with a [uint256], it resolves with that integer printed by
    [formatUnits] with eighteen decimals, a string that parses back to the
    integer; when the read fails, whatever the fault, it resolves with
    "0". *)
Theorem userHealthFactor_never_throws
    {chain tx filter log : Type} (backend : Backend chain tx filter log)
    (user : string) (w : @world chain tx filter) :
  (exists s, fst (userHealthFactor backend user w) = Normal s)
  /\ (forall hf st,
        call_uint backend "userHealthFactor" [AStr user] (w_chain w)
        = (Normal hf, st) ->
        uint256 hf ->
        exists s, formatUnits hf 18 = Normal s
                  /\ parseUnits s 18 = Normal hf
                  /\ fst (userHealthFactor backend user w) = Normal s)
  /\ (forall e st,
        call_uint backend "userHealthFactor" [AStr user] (w_chain w)
        = (Throw e, st) ->
        fst (userHealthFactor backend user w) = Normal "0"%string).
Proof.
  rewrite userHealthFactor_cases.
  destruct (call_uint backend "userHealthFactor" [AStr user] (w_chain w))
    as [[hf|e] st] eqn:Ecall.
  - split; [|split].
    + destruct (formatUnits hf 18); eexists; reflexivity.
    + intros hf' st' E Hu. inversion E. subst hf' st'.
      destruct (parse_format hf 18 ltac:(lia) (uint256_in_range hf Hu))
        as (s & Hfmt & Hparse).
      exists s. rewrite Hfmt. repeat split; assumption.
    + intros e' st' E. discriminate E.
  - split; [|split].
    + eexists; reflexivity.
    + intros hf st' E. discriminate E.
    + intros e' st' _. reflexivity.
Qed.

Lemma userHealthFactor_never_throws_witness :
  (exists s, formatUnits 2000000000000000000 18 = Normal s
             /\ parseUnits s 18 = Normal 2000000000000000000
             /\ fst (userHealthFactor Mock.echo "0xA11CE" Mock.w0) = Normal s)
  /\ fst (userHealthFactor Mock.down "0xA11CE" Mock.w0) = Normal "0"%string.
Proof.
  split.
  - apply (proj1 (proj2 (userHealthFactor_never_throws Mock.echo "0xA11CE" Mock.w0))
             2000000000000000000 tt eq_refl).
    unfold uint256. lia.
  - apply (proj2 (proj2 (userHealthFactor_never_throws Mock.down "0xA11CE" Mock.w0))
             (mkExn "NETWORK_ERROR" "could not detect network") tt eq_refl).
Defined.

(** C4.  [checkForBrokenHealthFactor] always resolves, with [true]
    exactly when the probe call resolves and with [false] exactly when it
    fails, whatever the fault. *)
Theorem checkForBrokenHealthFactor_total
    {chain tx filter log : Type} (backend : Backend chain tx filter log)
    (user : string) (w : @world chain tx filter) :
  let probe :=
    call_void backend "checkForBrokenHealthFactor" [AStr user] (w_chain w) in
  let result := fst (checkForBrokenHealthFactor backend user w) in
  (exists b, result = Normal b)
  /\ (result = Normal true <-> exists st, probe = (Normal tt, st))
  /\ (result = Normal false <-> exists e st, probe = (Throw e, st)).
Proof.
  cbv zeta.
  unfold checkForBrokenHealthFactor, try_catch, bind, perform, ret.
  destruct (call_void backend "checkForBrokenHealthFactor" [AStr user] (w_chain w))
    as [[[]|e] st]; cbn.
  - split; [eexists; reflexivity|]. split; split.
    + intros _. eexists; reflexivity.
    + reflexivity.
    + discriminate.
    + intros (e & st' & E). discriminate E.
  - split; [eexists; reflexivity|]. split; split.
    + discriminate.
    + intros (st' & E). discriminate E.
    + intros _. do 2 eexists; reflexivity.
    + reflexivity.
Qed.

Lemma checkForBrokenHealthFactor_total_witness :
  fst (checkForBrokenHealthFactor Mock.echo "0xA11CE" Mock.w0) = Normal true
  /\ fst (checkForBrokenHealthFactor Mock.down "0xA11CE" Mock.w0) = Normal false.
Proof.
  split.
  - apply (proj1 (proj2 (checkForBrokenHealthFactor_total
                           Mock.echo "0xA11CE" Mock.w0))).
    exists tt. reflexivity.
  - apply (proj2 (proj2 (checkForBrokenHealthFactor_total
                           Mock.down "0xA11CE" Mock.w0))).
    exists (mkExn "NETWORK_ERROR" "could not detect network"), tt. reflexivity.
Defined.

(** *** [getLiquidityPool] *)

(** C7.  [getLiquidityPool] resolves with the position's amount printed
    with eighteen decimals and with the two timestamps as numbers: for a
    position of [uint256] fields the amount is the [formatUnits] string
    (which parses back to the integer) and each timestamp is the number
    nearest to the integer, the integer itself below 2^53.  For the
    position {5 * 10^18, 1000, 2000} the result is {"5.0", 1000, 2000}. *)
Theorem getLiquidityPool_rescales
    {chain tx filter log : Type} (backend : Backend chain tx filter log)
    (user token : string) (w : @world chain tx filter) :
  let read :=
    call_pool backend "liquidityPool" [AStr user; AStr token] (w_chain w) in
  let result := fst (getLiquidityPool backend user token w) in
  (forall p st,
     read = (Normal p, st) ->
     uint256 (p_amount p) -> uint256 (p_withdrawalTime p) ->
     uint256 (p_addedAt p) ->
     exists s,
       formatUnits (p_amount p) 18 = Normal s
       /\ parseUnits s 18 = Normal (p_amount p)
       /\ result = Normal (mkLiquidity s (to_number (p_withdrawalTime p))
                             (to_number (p_addedAt p)))
       /\ (p_withdrawalTime p < 2 ^ 53 ->
           to_number (p_withdrawalTime p) = Finite (p_withdrawalTime p))
       /\ (p_addedAt p < 2 ^ 53 ->
           to_number (p_addedAt p) = Finite (p_addedAt p)))
  /\ (forall st,
        read = (Normal (mkPool 5000000000000000000 1000 2000), st) ->
        result = Normal (mkLiquidity "5.0" (Finite 1000) (Finite 2000))).
Proof.
  cbv zeta. unfold getLiquidityPool, bind, perform, eval, ret. split.
  - intros p st E Ha Hw Hd. rewrite E. cbn [fst].
    destruct (parse_format (p_amount p) 18 ltac:(lia)
                (uint256_in_range _ Ha)) as (s & Hfmt & Hparse).
    exists s. rewrite Hfmt.
    rewrite (Number_formatUnits0_spec _ (uint256_in_range _ Hw)).
    rewrite (Number_formatUnits0_spec _ (uint256_in_range _ Hd)).
    repeat split; try assumption.
    + intros Hlt. apply to_number_exact. unfold uint256 in Hw. lia.
    + intros Hlt. apply to_number_exact. unfold uint256 in Hd. lia.
  - intros st E. rewrite E. reflexivity.
Qed.

Lemma getLiquidityPool_rescales_witness :
  fst (getLiquidityPool Mock.echo "0xA11CE" "0xDA1" Mock.w0)
  = Normal (mkLiquidity "5.0" (Finite 1000) (Finite 2000)).
Proof.
  apply (proj2 (getLiquidityPool_rescales Mock.echo "0xA11CE" "0xDA1" Mock.w0) tt).
  reflexivity.
Defined.

(** *** [queryFilterEventByAccount] *)

Section Decoding.
Context {chain tx filter log : Type}.
Variable backend : Backend chain tx filter log.
Variable eventName : string.

Lemma decode_spec l (w : @world chain tx filter) :
  fst (decode backend eventName l w) = Normal (decoded backend eventName l)
  /\ w_chain (snd (decode backend eventName l w)) = w_chain w
  /\ w_trace (snd (decode backend eventName l w)) = w_trace w.
Proof.
  unfold decode, decoded, try_catch, bind, eval, console, ret.
  destruct (parseLog backend l) as [[args|]|e]; cbn.
  - destruct (formatUnits (a_amount args) 18); cbn; repeat split.
  - repeat split.
  - repeat split.
Qed.

Lemma decodes_to_decoded (w : @world chain tx filter) l r :
  decodes_to backend eventName l r <-> decoded backend eventName l = r.
Proof.
  unfold decodes_to. split.
  - intros H. specialize (H w).
    rewrite (proj1 (decode_spec l w)) in H. inversion H. reflexivity.
  - intros <- w'. apply decode_spec.
Qed.

(** An entry does not decode when [parseLog] throws or gives [null]. *)
Lemma parse_failure_drops l :
  (exists e, parseLog backend l = Throw e) \/ parseLog backend l = Normal None ->
  decodes_to backend eventName l None.
Proof.
  intros H w. rewrite (proj1 (decode_spec l w)). f_equal.
  unfold decoded. destruct H as [[e ->]| ->]; reflexivity.
Qed.

Lemma mapM_decode logs : forall w : @world chain tx filter,
  fst (mapM (decode backend eventName) logs w)
  = Normal (map (decoded backend eventName) logs).
Proof.
  induction logs as [|l logs IH]; intros w; [reflexivity|].
  cbn [mapM map]. unfold bind at 1.
  pose proof (proj1 (decode_spec l w)) as Hd.
  destruct (decode backend eventName l w) as [c w1]. cbn [fst] in Hd. subst c.
  unfold bind at 1. specialize (IH w1).
  destruct (mapM (decode backend eventName) logs w1) as [c w2].
  cbn [fst] in IH. subst c. reflexivity.
Qed.

Lemma survivors_decoded (w : @world chain tx filter) logs :
  survivors backend eventName logs
    (filter_non_null (map (decoded backend eventName) logs)).
Proof.
  induction logs as [|l logs IH]; [constructor|].
  cbn [map filter_non_null]. destruct (decoded backend eventName l) as [ev|] eqn:E.
  - apply survivors_keep; [|exact IH]. apply (decodes_to_decoded w). exact E.
  - apply survivors_drop; [|exact IH]. apply (decodes_to_decoded w). exact E.
Qed.

Lemma queryFilterEventByAccount_spec acount fromBlock toBlock
    (w : @world chain tx filter) f logs st :
  filters backend eventName acount = Normal f ->
  queryFilter backend f fromBlock
    (match toBlock with Some b => b | None => BlockName "latest" end)
    (w_chain w) = (Normal logs, st) ->
  fst (queryFilterEventByAccount backend acount eventName fromBlock toBlock w)
  = Normal (filter_non_null (map (decoded backend eventName) logs)).
Proof.
  intros Hf Hq. unfold queryFilterEventByAccount.
  unfold bind at 1. unfold eval. rewrite Hf.
  unfold bind at 1. unfold perform. rewrite Hq.
  unfold bind at 1.
  match goal with
  | |- context [mapM (decode backend eventName) logs ?w1] =>
      pose proof (mapM_decode logs w1) as Hm;
      destruct (mapM (decode backend eventName) logs w1) as [c w2]
  end.
  cbn [fst] in Hm. subst c. reflexivity.
Qed.

End Decoding.

(** C2.  Once the batch of logs is retrieved, [queryFilterEventByAccount]
    resolves with the entries that decode, in the order of the logs; an
    entry that does not decode (in particular one for which [parseLog]
    throws or gives [null]) is left out and stops nothing.  For a batch
    of three entries of which the second does not decode, the result is
    the first and the third decoded event, in this order. *)
Theorem queryFilter_drops_undecodable
    {chain tx filter log : Type} (backend : Backend chain tx filter log)
    (acount eventName : string) (fromBlock : number) (toBlock : option blockTag)
    (w : @world chain tx filter) (f : filter) (logs : list log) (st : chain) :
  filters backend eventName acount = Normal f ->
  queryFilter backend f fromBlock
    (match toBlock with Some b => b | None => BlockName "latest" end)
    (w_chain w) = (Normal logs, st) ->
  exists evs,
    fst (queryFilterEventByAccount backend acount eventName fromBlock toBlock w)
    = Normal evs
    /\ survivors backend eventName logs evs
    /\ (forall l,
          (exists e, parseLog backend l = Throw e)
          \/ parseLog backend l = Normal None ->
          decodes_to backend eventName l None)
    /\ (forall l1 l2 l3 e1 e3,
          logs = [l1; l2; l3] ->
          decodes_to backend eventName l1 (Some e1) ->
          decodes_to backend eventName l2 None ->
          decodes_to backend eventName l3 (Some e3) ->
          evs = [e1; e3]).
Proof.
  intros Hf Hq. eexists. split; [|split; [|split]].
  - apply (queryFilterEventByAccount_spec backend eventName _ _ _ w f logs st Hf Hq).
  - apply (survivors_decoded backend eventName w).
  - apply parse_failure_drops.
  - intros l1 l2 l3 e1 e3 -> H1 H2 H3.
    apply (decodes_to_decoded backend eventName w) in H1, H2, H3.
    cbn [map filter_non_null]. rewrite H1, H2, H3. reflexivity.
Qed.

Lemma queryFilter_drops_undecodable_witness :
  exists evs,
    fst (queryFilterEventByAccount Mock.echo "0xA11CE" "CollateralDeposited"
           (Finite 0) None Mock.w0) = Normal evs
    /\ evs = [mkEvents "0xA11CE" "0xDA1" "5.0" (Finite 1700000000000)
                "CollateralDeposited";
              mkEvents "0xA11CE" "0xDA1" "1.5" (Finite 1700000600000)
                "CollateralDeposited"].
Proof.
  destruct (queryFilter_drops_undecodable Mock.echo "0xA11CE" "CollateralDeposited"
              (Finite 0) None Mock.w0
              ("CollateralDeposited"%string, "0xA11CE"%string)
              [1; 2; 3]%nat tt eq_refl eq_refl)
    as (evs & Hres & _ & _ & Hthree).
  exists evs. split; [exact Hres|].
  apply (Hthree 1%nat 2%nat 3%nat); try reflexivity; intros w'; reflexivity.
Defined.

(** C9 (amended).  Every event [queryFilterEventByAccount] resolves with
    comes from a log whose arguments [parseLog] decoded, and its
    [timeStamp] is the number [Number(t) * 1000] for the on-chain
    timestamp [t] of these arguments.  That number is [t * 1000], the
    timestamp in milliseconds, whenever [t * 1000] is below 2^53, which
    covers every date of the next 285 000 years; past that, the two
    roundings to binary64 can lose the low digits. *)
Theorem timeStamp_in_milliseconds
    {chain tx filter log : Type} (backend : Backend chain tx filter log)
    (acount eventName : string) (fromBlock : number) (toBlock : option blockTag)
    (w : @world chain tx filter) (evs : list Events) (ev : Events) :
  fst (queryFilterEventByAccount backend acount eventName fromBlock toBlock w)
  = Normal evs ->
  In ev evs ->
  exists l args,
    parseLog backend l = Normal (Some args)
    /\ decodes_to backend eventName l (Some ev)
    /\ timeStamp ev
       = number_mul (Number_of_bigint (a_timeStamp args)) (Finite 1000)
    /\ (0 <= a_timeStamp args -> a_timeStamp args * 1000 < 2 ^ 53 ->
        timeStamp ev = Finite (a_timeStamp args * 1000)).
Proof.
  intros Hres Hin.
  assert (Hsrc : exists logs, In ev (filter_non_null (map (decoded backend eventName) logs))).
  { unfold queryFilterEventByAccount in Hres.
    unfold bind at 1 in Hres. unfold eval in Hres.
    destruct (filters backend eventName acount) as [f|e]; [|discriminate].
    unfold bind at 1 in Hres. unfold perform in Hres.
    destruct (queryFilter backend f fromBlock _ (w_chain w)) as [[logs|e] st];
      [|discriminate].
    unfold bind at 1 in Hres.
    match type of Hres with
    | context [mapM (decode backend eventName) logs ?w1] =>
        pose proof (mapM_decode backend eventName logs w1) as Hm;
        destruct (mapM (decode backend eventName) logs w1) as [c w2]
    end.
    cbn [fst] in Hm. subst c. cbn in Hres. inversion Hres. subst evs.
    exists logs. exact Hin. }
  destruct Hsrc as [logs Hin'].
  assert (Hl : exists l, decoded backend eventName l = Some ev).
  { clear - Hin'. induction logs as [|l logs IH]; [contradiction|].
    cbn [map filter_non_null] in Hin'.
    destruct (decoded backend eventName l) as [ev'|] eqn:E.
    - destruct Hin' as [->|Hin']; [exists l; exact E|auto].
    - auto. }
  destruct Hl as [l Hl]. pose proof Hl as Hl'. unfold decoded in Hl'.
  destruct (parseLog backend l) as [[args|]|e] eqn:Ep; try discriminate.
  destruct (formatUnits (a_amount args) 18) as [s|e]; [|discriminate].
  inversion Hl'. subst ev. clear Hl'. cbn [timeStamp].
  exists l, args. split; [exact Ep|]. split; [|split; [reflexivity|]].
  - apply (decodes_to_decoded backend eventName w). exact Hl.
  - intros H0 H1. unfold Number_of_bigint.
    rewrite to_number_exact by lia. cbn [number_mul].
    apply to_number_exact. lia.
Qed.

Lemma timeStamp_in_milliseconds_witness :
  let ev := mkEvents "0xA11CE" "0xDA1" "5.0" (Finite 1700000000000)
              "CollateralDeposited" in
  exists l args,
    parseLog Mock.echo l = Normal (Some args)
    /\ decodes_to Mock.echo "CollateralDeposited" l (Some ev)
    /\ timeStamp ev
       = number_mul (Number_of_bigint (a_timeStamp args)) (Finite 1000)
    /\ (0 <= a_timeStamp args -> a_timeStamp args * 1000 < 2 ^ 53 ->
        timeStamp ev = Finite (a_timeStamp args * 1000)).
Proof.
  apply (timeStamp_in_milliseconds Mock.echo "0xA11CE" "CollateralDeposited"
           (Finite 0) None Mock.w0
           [mkEvents "0xA11CE" "0xDA1" "5.0" (Finite 1700000000000)
              "CollateralDeposited";
            mkEvents "0xA11CE" "0xDA1" "1.5" (Finite 1700000600000)
              "CollateralDeposited"]).
  - reflexivity.
  - left. reflexivity.
Defined.

(** C9 as stated fails past the range of exact numbers: for the on-chain
    timestamp 2^53 + 1 the event carries 2^53 * 1000. *)
Lemma timeStamp_rounding_counterexample :
  Mock.parse 4
  = Normal (Some (mkArgs "0xA11CE" "0xDA1" 1000000000000000000 9007199254740993))
  /\ fst (queryFilterEventByAccount Mock.archive "0xA11CE" "CollateralDeposited"
            (Finite 0) None Mock.w0)
     = Normal [mkEvents "0xA11CE" "0xDA1" "1.0" (Finite 9007199254740992000)
                 "CollateralDeposited"]
  /\ Finite 9007199254740992000 <> Finite (9007199254740993 * 1000).
Proof.
  split; [reflexivity|]. split; [vm_compute; reflexivity|].
  intros E. inversion E.
Qed.

(** *** The state-changing operations *)

Section Writes.
Context {chain tx filter log : Type}.
Variable backend : Backend chain tx filter log.

Lemma run_write_submit c w :
  run_write backend c w
  = match args_of c with
    | Normal args => submit backend (method_of c) args w
    | Throw e => (Throw e, w)
    end.
Proof.
  destruct c; cbn [run_write args_of method_of]; try reflexivity;
    unfold depositCollateral, borrowAsset, repayLoan, liquidatePosition,
      addLiquidity, rebalancePortfolio, with_amount, submit, bind at 1, eval;
    match goal with
    | |- context [parseUnits ?a 18] => destruct (parseUnits a 18)
    end; reflexivity.
Qed.

Lemma submit_spec method args w :
  submit backend method args w
  = match call_tx backend method args (w_chain w) with
    | (Throw e, st) => (Throw e, after w st [(ReqCall method args, Some e)])
    | (Normal t, st) =>
        match wait backend t st with
        | (Throw e, st') =>
            (Throw e, after w st' [(ReqCall method args, None); (ReqWait t, Some e)])
        | (Normal tt, st') =>
            (Normal tt, after w st' [(ReqCall method args, None); (ReqWait t, None)])
        end
    end.
Proof.
  unfold submit, bind, send, tx_wait, perform, after.
  destruct (call_tx backend method args (w_chain w)) as [[t|e] st]; cbn;
    [|reflexivity].
  destruct (wait backend t st) as [[[]|e] st']; cbn;
    rewrite <- app_assoc; reflexivity.
Qed.

End Writes.

(** C8.  Each of the ten state-changing methods evaluates its arguments,
    submits the transaction and, once the submission resolves, waits for
    the transaction.  It resolves, with no value, only after the wait
    resolves; a fault of the submission or of the wait (a revert) rejects
    the method with that same fault, the wait being skipped in the first
    case.  A fault met while the amount is scaled rejects the method too,
    before anything is submitted. *)
Theorem write_operations_await
    {chain tx filter log : Type} (backend : Backend chain tx filter log)
    (c : write_call) (w : @world chain tx filter) :
  let m := method_of c in
  (forall e, args_of c = Throw e -> run_write backend c w = (Throw e, w))
  /\ (forall args e st,
        args_of c = Normal args ->
        call_tx backend m args (w_chain w) = (Throw e, st) ->
        run_write backend c w
        = (Throw e, after w st [(ReqCall m args, Some e)]))
  /\ (forall args t st e st',
        args_of c = Normal args ->
        call_tx backend m args (w_chain w) = (Normal t, st) ->
        wait backend t st = (Throw e, st') ->
        run_write backend c w
        = (Throw e, after w st' [(ReqCall m args, None); (ReqWait t, Some e)]))
  /\ (forall args t st st',
        args_of c = Normal args ->
        call_tx backend m args (w_chain w) = (Normal t, st) ->
        wait backend t st = (Normal tt, st') ->
        run_write backend c w
        = (Normal tt, after w st' [(ReqCall m args, None); (ReqWait t, None)]))
  /\ (fst (run_write backend c w) = Normal tt ->
      exists args t st st',
        args_of c = Normal args
        /\ call_tx backend m args (w_chain w) = (Normal t, st)
        /\ wait backend t st = (Normal tt, st')).
Proof.
  cbv zeta. rewrite run_write_submit.
  destruct (args_of c) as [args|e0].
  - rewrite submit_spec. repeat split.
    + intros e E. discriminate E.
    + intros args' e st E Hc. inversion E. subst args'. rewrite Hc. reflexivity.
    + intros args' t st e st' E Hc Hw. inversion E. subst args'.
      rewrite Hc, Hw. reflexivity.
    + intros args' t st st' E Hc Hw. inversion E. subst args'.
      rewrite Hc, Hw. reflexivity.
    + destruct (call_tx backend (method_of c) args (w_chain w)) as [[t|e] st]
        eqn:Hc; [|discriminate].
      destruct (wait backend t st) as [[[]|e] st'] eqn:Hw; [|discriminate].
      intros _. exists args, t, st, st'. repeat split; assumption.
  - repeat split.
    + intros e E. inversion E. reflexivity.
    + intros args e st E. discriminate E.
    + intros args t st e st' E. discriminate E.
    + intros args t st st' E. discriminate E.
    + discriminate.
Qed.

Lemma write_operations_await_witness :
  depositCollateral Mock.echo "0xDA1" "1.5" Mock.w0
  = (Normal tt,
     after Mock.w0 tt
       [(ReqCall "depositCollateral" [AStr "0xDA1"; ABig 1500000000000000000], None);
        (ReqWait 7%nat, None)])
  /\ depositCollateral Mock.down "0xDA1" "1.5" Mock.w0
     = (Throw (mkExn "NETWORK_ERROR" "could not detect network"),
        after Mock.w0 tt
          [(ReqCall "depositCollateral" [AStr "0xDA1"; ABig 1500000000000000000],
            Some (mkExn "NETWORK_ERROR" "could not detect network"))]).
Proof.
  split.
  - apply (proj1 (proj2 (proj2 (proj2
             (write_operations_await Mock.echo (DepositCollateral "0xDA1" "1.5") Mock.w0))))
             [AStr "0xDA1"; ABig 1500000000000000000] 7%nat tt tt);
      reflexivity.
  - apply (proj1 (proj2
             (write_operations_await Mock.down (DepositCollateral "0xDA1" "1.5") Mock.w0))
             [AStr "0xDA1"; ABig 1500000000000000000]
             (mkExn "NETWORK_ERROR" "could not detect network") tt);
      reflexivity.
Defined.

End AdapterSpec.

(* ===================================================================== *)
(** ** The observer's runs *)
(* ===================================================================== *)

Module ObserverSpec.
Import JS Observer Spec.

Lemma run_snoc s evs ev : run s (evs ++ [ev]) = step (run s evs) ev.
Proof. unfold run. rewrite fold_left_app. reflexivity. Qed.

Lemma effect_waiting s c a :
  waiting c a = true ->
  healthFactor (effect s c a) = healthFactor s
  /\ pending (effect s c a) = pending s
  /\ issued (effect s c a) = issued s.
Proof.
  unfold waiting, falsy_account, effect.
  destruct c as [h|]; [|repeat split].
  destruct a as [acc|]; [|repeat split].
  intros ->. repeat split.
Qed.

Lemma effect_ready s h acc :
  String.eqb acc "" = false ->
  healthFactor (effect s (Some h) (Some acc)) = healthFactor s
  /\ pending (effect s (Some h) (Some acc))
     = pending s ++ [mkFetch (next_id s) h acc]
  /\ issued (effect s (Some h) (Some acc)) = issued s ++ [(h, acc)].
Proof. intros E. unfold effect. rewrite E. repeat split. Qed.

Lemma effect_healthFactor s c a : healthFactor (effect s c a) = healthFactor s.
Proof.
  unfold effect. destruct c; [|reflexivity]. destruct a; [|reflexivity].
  destruct (String.eqb _ _); reflexivity.
Qed.

Lemma render_healthFactor s c a :
  healthFactor (step s (Render c a)) = healthFactor s.
Proof.
  cbn [step]. destruct (deps_changed s c a); [apply effect_healthFactor|reflexivity].
Qed.

Lemma settle_issued s id r : issued (settle s id r) = issued s.
Proof.
  unfold settle. destruct (is_pending id s); [|reflexivity].
  destruct r; reflexivity.
Qed.

Lemma settle_throw s id e : healthFactor (settle s id (Throw e)) = healthFactor s.
Proof. unfold settle. destruct (is_pending id s); reflexivity. Qed.

Lemma settle_pending_incl s id r f :
  In f (pending (settle s id r)) -> In f (pending s).
Proof.
  unfold settle. destruct (is_pending id s); [|auto].
  destruct r; cbn [pending]; unfold remove_pending;
    intros H; apply filter_In in H; tauto.
Qed.

Lemma is_pending_In id s :
  is_pending id s = true -> exists f, In f (pending s) /\ f_id f = id.
Proof.
  unfold is_pending. intros H. apply existsb_exists in H.
  destruct H as (f & Hin & Hid). apply Nat.eqb_eq in Hid. eauto.
Qed.

Lemma sound_init : sound init.
Proof. intros f []. Qed.

Lemma sound_step s ev : sound s -> sound (step s ev).
Proof.
  intros Hs. destruct ev as [c a|id r]; cbn [step].
  - destruct (deps_changed s c a); [|exact Hs].
    destruct (waiting c a) eqn:Ew.
    + destruct (effect_waiting s c a Ew) as (_ & Hp & Hi).
      intros f Hf. rewrite Hp in Hf. rewrite Hi. auto.
    + unfold waiting, falsy_account in Ew.
      destruct c as [h|]; [|discriminate]. destruct a as [acc|]; [|discriminate].
      destruct (effect_ready s h acc Ew) as (_ & Hp & Hi).
      intros f Hf. rewrite Hp in Hf. rewrite Hi.
      apply in_app_or in Hf. destruct Hf as [Hf|[<-|[]]].
      * destruct (Hs f Hf). split; [apply in_or_app; auto|assumption].
      * cbn [f_contract f_account]. split; [apply in_or_app; right; left; reflexivity|].
        intros ->. discriminate Ew.
  - intros f Hf. rewrite settle_issued.
    apply Hs. eapply settle_pending_incl. exact Hf.
Qed.

Lemma sound_run evs : forall s, sound s -> sound (run s evs).
Proof.
  induction evs as [|ev evs IH]; intros s Hs; [exact Hs|].
  cbn [run fold_left]. apply IH. apply sound_step. exact Hs.
Qed.

(** C6.  In every reachable state of the observer: a render while the
    contract handle or the account is missing sends no read and leaves
    the published value and the pending reads as they are; a read that
    fails leaves the published value as it is; and the published value
    changes only when a pending read, which was sent with a handle and a
    non-empty account, resolves, to the value it resolves with.  A render
    sends a read only with both present. *)
Theorem observer_publishes_only_successful_reads
    (evs : list event) (ev : event) :
  let s := run init evs in
  let s' := step s ev in
  (forall c a, ev = Render c a -> waiting c a = true ->
     issued s' = issued s /\ pending s' = pending s
     /\ healthFactor s' = healthFactor s)
  /\ (forall id e, ev = Settle id (Throw e) ->
        healthFactor s' = healthFactor s /\ issued s' = issued s)
  /\ (healthFactor s' <> healthFactor s ->
      exists id v f,
        ev = Settle id (Normal v) /\ healthFactor s' = Some v
        /\ In f (pending s) /\ f_id f = id
        /\ In (f_contract f, f_account f) (issued s)
        /\ f_account f <> ""%string)
  /\ (issued s' <> issued s ->
      exists h acc,
        ev = Render (Some h) (Some acc) /\ acc <> ""%string
        /\ issued s' = issued s ++ [(h, acc)]).
Proof.
  cbv zeta. set (s := run init evs).
  assert (Hs : sound s) by (apply sound_run, sound_init).
  split; [|split; [|split]].
  - intros c a -> Hw. cbn [step].
    destruct (deps_changed s c a); [|repeat split].
    destruct (effect_waiting s c a Hw) as (Hh & Hp & Hi). repeat split; assumption.
  - intros id e ->. cbn [step]. split; [apply settle_throw|apply settle_issued].
  - intros Hch. destruct ev as [c a|id r].
    + rewrite render_healthFactor in Hch. congruence.
    + cbn [step] in *. unfold settle in *.
      destruct (is_pending id s) eqn:Ep; [|congruence].
      destruct r as [v|e]; [|cbn in Hch; congruence].
      destruct (is_pending_In id s Ep) as (f & Hin & Hid).
      destruct (Hs f Hin) as [Hi Hne].
      exists id, v, f. repeat split; assumption.
  - intros Hch. destruct ev as [c a|id r].
    + cbn [step] in *. destruct (deps_changed s c a); [|congruence].
      destruct (waiting c a) eqn:Ew.
      * destruct (effect_waiting s c a Ew) as (_ & _ & Hi). congruence.
      * unfold waiting, falsy_account in Ew.
        destruct c as [h|]; [|discriminate]. destruct a as [acc|]; [|discriminate].
        destruct (effect_ready s h acc Ew) as (_ & _ & Hi).
        exists h, acc. repeat split; [|exact Hi].
        intros ->. discriminate Ew.
    + cbn [step] in Hch. rewrite settle_issued in Hch. congruence.
Qed.

Lemma observer_publishes_only_successful_reads_witness :
  (issued (step (run init [Render None None]) (Render (Some 1%nat) None))
   = issued (run init [Render None None])
   /\ pending (step (run init [Render None None]) (Render (Some 1%nat) None))
      = pending (run init [Render None None])
   /\ healthFactor (step (run init [Render None None]) (Render (Some 1%nat) None))
      = healthFactor (run init [Render None None]))
  /\ healthFactor (step (run init [Render (Some 1%nat) (Some "0xA11CE"%string)])
                     (Settle 0 (Throw (mkExn "NETWORK_ERROR" "timeout"))))
     = healthFactor (run init [Render (Some 1%nat) (Some "0xA11CE"%string)]).
Proof.
  split.
  - apply (proj1 (observer_publishes_only_successful_reads
                    [Render None None] (Render (Some 1%nat) None))
             (Some 1%nat) None eq_refl eq_refl).
  - apply (proj1 (proj2 (observer_publishes_only_successful_reads
                    [Render (Some 1%nat) (Some "0xA11CE"%string)]
                    (Settle 0 (Throw (mkExn "NETWORK_ERROR" "timeout")))))
             0%nat (mkExn "NETWORK_ERROR" "timeout") eq_refl).
Defined.

Lemma step_keeps_published s ev :
  healthFactor s <> None -> healthFactor (step s ev) <> None.
Proof.
  intros H. destruct ev as [c a|id r].
  - rewrite render_healthFactor. exact H.
  - cbn [step]. unfold settle. destruct (is_pending id s); [|exact H].
    destruct r; cbn [healthFactor]; [discriminate|exact H].
Qed.

Lemma step_without_success s ev :
  (forall id v, ev <> Settle id (Normal v)) ->
  healthFactor (step s ev) = healthFactor s.
Proof.
  intros H. destruct ev as [c a|id [v|e]].
  - apply render_healthFactor.
  - exfalso. apply (H id v). reflexivity.
  - apply settle_throw.
Qed.

(** C10.  The published health factor is [null] at first and stays
    [null] along any run in which no read resolves; once it is not
    [null], no run of the observer makes it [null] again. *)
Theorem healthFactor_null_until_published :
  healthFactor init = None
  /\ (forall evs,
        (forall id v, ~ In (Settle id (Normal v)) evs) ->
        healthFactor (run init evs) = None)
  /\ (forall s evs,
        healthFactor s <> None -> healthFactor (run s evs) <> None).
Proof.
  split; [reflexivity|]. split.
  - intros evs. induction evs as [|ev evs IH] using rev_ind; intros H;
      [reflexivity|].
    rewrite run_snoc, step_without_success.
    + apply IH. intros id v Hin. apply (H id v). apply in_or_app. auto.
    + intros id v ->. apply (H id v). apply in_or_app. right. left. reflexivity.
  - intros s evs. revert s. induction evs as [|ev evs IH]; intros s H; [exact H|].
    cbn [run fold_left]. apply IH. apply step_keeps_published. exact H.
Qed.

Lemma healthFactor_null_until_published_witness :
  healthFactor (run init [Render (Some 1%nat) (Some "0xA11CE"%string);
                          Settle 0 (Throw (mkExn "NETWORK_ERROR" "timeout"))])
  = None
  /\ healthFactor
       (run (run init [Render (Some 1%nat) (Some "0xA11CE"%string);
                       Settle 0 (Normal "1.5"%string)])
          [Render None None; Render (Some 2%nat) (Some "0xB0B"%string);
           Settle 1 (Throw (mkExn "NETWORK_ERROR" "timeout"))])
     <> None.
Proof.
  split.
  - apply (proj1 (proj2 healthFactor_null_until_published)).
    intros id v [H|[H|[]]]; discriminate H.
  - apply (proj2 (proj2 healthFactor_null_until_published)).
    cbn. discriminate.
Defined.

End ObserverSpec.

(* ===================================================================== *)
(** ** The reads of an amount *)
(* ===================================================================== *)

Module ReadsSpec.
Import JS Ethers Adapter Decimal Spec Coverage DigitFacts EthersFacts AdapterSpec.

Section Reads.
Context {chain tx filter log : Type}.
Variable backend : Backend chain tx filter log.

Lemma run_read_view c (w : @world chain tx filter) :
  run_read backend c w
  = match call_uint backend (read_method c) (read_args c) (w_chain w) with
    | (Normal v, st) =>
        (formatUnits v 18,
         after w st [(ReqCall (read_method c) (read_args c), None)])
    | (Throw e, st) =>
        (Throw e, after w st [(ReqCall (read_method c) (read_args c), Some e)])
    end.
Proof.
  destruct c; cbn [run_read read_method read_args];
    unfold collateralDeposited, getUserTotalBorrowed, getUserTotalCollateral,
      allowedBorrowingAmount, totalLiquidity, calculateBasicLPRewards,
      treasury, getTotalValueLocked, bind, view, perform, eval, after;
    match goal with
    | |- context [call_uint backend ?m ?a (w_chain w)] =>
        destruct (call_uint backend m a (w_chain w)) as [[v|e] st]
    end; reflexivity.
Qed.

(** A printed amount is never the bare string "0". *)
Lemma formatUnits_not_sentinel v s :
  formatUnits v 18 = Normal s -> s <> "0"%string.
Proof.
  intros Hf ->. apply formatUnits_canonical in Hf; [|lia]. discriminate Hf.
Qed.

End Reads.

(** X1.  Each of the eight reads of an amount ([collateralDeposited],
    [getUserTotalBorrowed], [getUserTotalCollateral],
    [allowedBorrowingAmount], [totalLiquidity], [calculateBasicLPRewards],
    [treasury], [getTotalValueLocked]) makes one call, to the contract
    method [read_method] names, and nothing else.  A fault of the call
    rejects the read with that fault; a [uint256] answer resolves it with
    the canonical decimal string that scales back to the answer. *)
Theorem reads_format_or_propagate
    {chain tx filter log : Type} (backend : Backend chain tx filter log)
    (c : read_call) (w : @world chain tx filter) :
  let m := read_method c in
  let args := read_args c in
  (forall e st,
     call_uint backend m args (w_chain w) = (Throw e, st) ->
     run_read backend c w = (Throw e, after w st [(ReqCall m args, Some e)]))
  /\ (forall v st,
        call_uint backend m args (w_chain w) = (Normal v, st) ->
        uint256 v ->
        exists s,
          run_read backend c w = (Normal s, after w st [(ReqCall m args, None)])
          /\ canonical_decimal 18 s = true
          /\ parseUnits s 18 = Normal v).
Proof.
  cbv zeta. rewrite run_read_view. split.
  - intros e st E. rewrite E. reflexivity.
  - intros v st E Hu. rewrite E.
    destruct (parse_format v 18 ltac:(lia) (uint256_in_range v Hu))
      as (s & Hf & Hp).
    exists s. rewrite Hf. repeat split; [|exact Hp].
    apply (formatUnits_canonical v 18 s ltac:(lia) Hf).
Qed.

Lemma reads_format_or_propagate_witness :
  (exists s,
     getTotalValueLocked Mock.echo "0xDA1" Mock.w0
     = (Normal s, after Mock.w0 tt [(ReqCall "tvl" [AStr "0xDA1"], None)])
     /\ canonical_decimal 18 s = true
     /\ parseUnits s 18 = Normal 2000000000000000000)
  /\ getUserTotalBorrowed Mock.down "0xA11CE" Mock.w0
     = (Throw (mkExn "NETWORK_ERROR" "could not detect network"),
        after Mock.w0 tt
          [(ReqCall "userTotalBorrowedAssetInUsd" [AStr "0xA11CE"],
            Some (mkExn "NETWORK_ERROR" "could not detect network"))]).
Proof.
  split.
  - apply (proj2 (reads_format_or_propagate Mock.echo
                    (GetTotalValueLocked "0xDA1") Mock.w0)
             2000000000000000000 tt eq_refl).
    unfold uint256. lia.
  - apply (proj1 (reads_format_or_propagate Mock.down
                    (GetUserTotalBorrowed "0xA11CE") Mock.w0)
             (mkExn "NETWORK_ERROR" "could not detect network") tt eq_refl).
Defined.

(** X2.  The "0" [userHealthFactor] resolves with after a failure is not
    a string it resolves with after a read: when a successful read
    answers with a [uint256], the result is "0" exactly when the read
    failed, and a health factor of zero is reported as "0.0". *)
Theorem userHealthFactor_sentinel_marks_failure
    {chain tx filter log : Type} (backend : Backend chain tx filter log)
    (user : string) (w : @world chain tx filter) :
  let read := call_uint backend "userHealthFactor" [AStr user] (w_chain w) in
  let result := fst (userHealthFactor backend user w) in
  (forall hf st, read = (Normal hf, st) -> uint256 hf) ->
  (result = Normal "0"%string <-> exists e st, read = (Throw e, st))
  /\ (forall st, read = (Normal 0, st) -> result = Normal "0.0"%string).
Proof.
  cbv zeta. intros Hu. rewrite userHealthFactor_cases.
  destruct (call_uint backend "userHealthFactor" [AStr user] (w_chain w))
    as [[hf|e] st] eqn:E.
  - pose proof (Hu hf st eq_refl) as Hhf.
    destruct (parse_format hf 18 ltac:(lia) (uint256_in_range hf Hhf))
      as (s & Hf & _).
    rewrite Hf. split; [split|].
    + intros R. inversion R. subst s.
      exfalso. exact (formatUnits_not_sentinel hf _ Hf eq_refl).
    + intros (e & st' & R). discriminate R.
    + intros st' R. inversion R. subst hf. rewrite <- Hf. reflexivity.
  - split; [split|].
    + intros _. exists e, st. reflexivity.
    + reflexivity.
    + intros st' R. discriminate R.
Qed.

Lemma userHealthFactor_sentinel_marks_failure_witness :
  fst (userHealthFactor (answering 0) "0xA11CE" Mock.w0) = Normal "0.0"%string
  /\ ~ (exists e st,
          call_uint (answering 0) "userHealthFactor" [AStr "0xA11CE"] tt
          = (Throw e, st)).
Proof.
  destruct (userHealthFactor_sentinel_marks_failure (answering 0) "0xA11CE" Mock.w0)
    as [Hiff Hzero].
  - intros hf st E. inversion E. unfold uint256. lia.
  - split; [apply (Hzero tt); reflexivity|].
    intros H. apply Hiff in H. discriminate H.
Defined.

End ReadsSpec.

(* ===================================================================== *)
(** ** The amount arguments *)
(* ===================================================================== *)

Module AmountsSpec.
Import JS Ethers Adapter Decimal Spec Coverage DigitFacts EthersFacts AdapterSpec.

Lemma span_digits_all w :
  forallb is_digit w = true -> span_digits w = (w, []).
Proof.
  induction w as [|c w IH]; intros H; [reflexivity|].
  cbn [forallb] in H. apply andb_true_iff in H. destruct H as [Hc Hw].
  cbn [span_digits]. rewrite Hc, (IH Hw). reflexivity.
Qed.

Lemma match_fixed_plain neg w :
  forallb is_digit w = true -> w <> [] ->
  match_fixed (sign_chars neg ++ w) = Some (sign_chars neg, w, []).
Proof.
  intros Hw Hne. unfold match_fixed.
  assert (E : split_sign (sign_chars neg ++ w) = (sign_chars neg, w)).
  { destruct neg; [reflexivity|]. cbn [sign_chars app].
    destruct w as [|c w']; [congruence|].
    cbn [forallb] in Hw. apply andb_true_iff in Hw. destruct Hw as [Hc _].
    cbn [split_sign]. rewrite (digit_not_minus c Hc). reflexivity. }
  rewrite E, span_digits_all by assumption. reflexivity.
Qed.

Lemma fromString_plain neg w decimals width :
  format_ok decimals width = true ->
  forallb is_digit w = true -> w <> [] ->
  fromString (string_of_list_ascii (sign_chars neg ++ w)) decimals width
  = if in_range width (fixed_point neg w None decimals)
    then Normal (fixed_point neg w None decimals)
    else Throw (NUMERIC_FAULT "overflow").
Proof.
  intros Hfmt Hw Hne. unfold fromString.
  rewrite list_ascii_of_string_of_list_ascii, match_fixed_plain by assumption.
  destruct (Nat.eqb_spec (length w + length (@nil ascii)) 0) as [E|_].
  { destruct w; [congruence|cbn in E; lia]. }
  rewrite Hfmt. cbn [negb].
  destruct (pad_end_spec decimals [] decimals ltac:(lia)) as [k [Hk Hl]].
  rewrite Hk.
  destruct (padded_fraction [] k decimals Hl) as [Hskip Hfirst].
  rewrite Hskip, Hfirst, skipn_nil, firstn_nil. cbn [forallb app length].
  rewrite Nat.sub_0_r.
  assert (Hwhole : match w with [] => ["0"%char] | _ :: _ => w end = w)
    by (destruct w; [congruence|reflexivity]).
  rewrite Hwhole, StringToBigInt_signed.
  - unfold fixed_point, fraction. cbn [length]. rewrite app_nil_r, Nat.sub_0_r.
    rewrite digits_value_app_zeros. reflexivity.
  - rewrite forallb_app, Hw, forallb_zeros_digit. reflexivity.
  - intros E. apply app_eq_nil in E. tauto.
Qed.

(** A decimal literal with at most [decimals] fractional digits scales
    to its fixed-point integer, or overflows the 512-bit format. *)
Lemma parseUnits_literal neg w f decimals :
  (decimals <= 80)%nat ->
  forallb is_digit w = true -> forallb is_digit (fraction f) = true ->
  (f = None -> w <> []) -> (0 < length w + length (fraction f))%nat ->
  (length (fraction f) <= decimals)%nat ->
  parseUnits (literal neg w f) decimals
  = if in_range 512 (fixed_point neg w f decimals)
    then Normal (fixed_point neg w f decimals)
    else Throw (NUMERIC_FAULT "overflow").
Proof.
  intros Hd Hw Hf Hnone Hlen Hfl. unfold parseUnits.
  pose proof (format_ok_512 decimals Hd) as Hfmt.
  destruct f as [f|]; cbn [literal fraction] in *.
  - rewrite fromString_dotted by assumption.
    rewrite skipn_all2 by lia. cbn [forallb].
    assert (E : scaled neg w f decimals = fixed_point neg w (Some f) decimals).
    { unfold scaled, fixed_point, fraction.
      rewrite firstn_all2 by lia.
      rewrite app_assoc, digits_value_app_zeros. reflexivity. }
    rewrite E. reflexivity.
  - apply fromString_plain; auto.
Qed.

(** A string that is no decimal literal does not scale. *)
Lemma parseUnits_not_literal amount decimals :
  fractional_digits amount = None ->
  parseUnits amount decimals = Throw invalid_value.
Proof.
  unfold fractional_digits, parseUnits, fromString.
  destruct (match_fixed (list_ascii_of_string amount)) as [[[sign m2] m3]|];
    [|reflexivity].
  destruct (length m2 + length m3 =? 0)%nat; [reflexivity|discriminate].
Qed.

Lemma args_of_amount c amount :
  amount_of c = Some amount ->
  match parseUnits amount 18 with
  | Normal a => exists args, args_of c = Normal args /\ In (ABig a) args
  | Throw e => args_of c = Throw e
  end.
Proof.
  destruct c; cbn [amount_of args_of]; intros E; inversion E; subst;
    unfold with_amount; destruct (parseUnits amount 18);
    try reflexivity; eexists; (split; [reflexivity|]); cbn; tauto.
Qed.

(** X3.  An amount written as a decimal literal with at most eighteen
    fractional digits (with or without a dot, with or without a minus
    sign) reaches the contract as the integer its digits spell times the
    missing power of ten, negative under a minus sign: each of the six
    state-changing methods that take an amount, and
    [getAssetValueInUSD], hands exactly this integer to the contract
    method as the first request it makes. *)
Theorem amounts_scale_exactly
    {chain tx filter log : Type} (backend : Backend chain tx filter log)
    (neg : bool) (whole : chars) (frac : option chars)
    (w : @world chain tx filter) :
  forallb is_digit whole = true -> forallb is_digit (fraction frac) = true ->
  (frac = None -> whole <> []) ->
  (0 < length whole + length (fraction frac))%nat ->
  (length (fraction frac) <= 18)%nat ->
  let amount := literal neg whole frac in
  let v := fixed_point neg whole frac 18 in
  in_range 512 v = true ->
  parseUnits amount 18 = Normal v
  /\ (forall c, amount_of c = Some amount ->
        exists args o rest,
          args_of c = Normal args /\ In (ABig v) args
          /\ w_trace (snd (run_write backend c w))
             = w_trace w ++ (ReqCall (method_of c) args, o) :: rest)
  /\ (forall token, exists o,
        w_trace (snd (getAssetValueInUSD backend token amount w))
        = w_trace w
          ++ [(ReqCall "getAssetValueInUSD" [AStr token; ABig v], o)]).
Proof.
  intros Hw Hf Hnone Hlen Hfl amount v Hr.
  assert (Hp : parseUnits amount 18 = Normal v).
  { unfold amount, v.
    rewrite parseUnits_literal by (assumption || lia).
    fold v. rewrite Hr. reflexivity. }
  split; [exact Hp|]. split.
  - intros c Hc. pose proof (args_of_amount c amount Hc) as Ha.
    rewrite Hp in Ha. destruct Ha as (args & Hargs & Hin).
    rewrite run_write_submit, Hargs, submit_spec.
    destruct (call_tx backend (method_of c) args (w_chain w)) as [[t|e] st].
    + destruct (wait backend t st) as [[[]|e] st'];
        do 3 eexists; (split; [reflexivity|]); (split; [exact Hin|]);
        cbn [snd after w_trace]; reflexivity.
    + do 3 eexists. split; [reflexivity|]. split; [exact Hin|].
      cbn [snd after w_trace]. reflexivity.
  - intros token. unfold getAssetValueInUSD, bind, eval, view, perform.
    rewrite Hp.
    destruct (call_uint backend "getAssetValueInUSD" [AStr token; ABig v]
                (w_chain w)) as [[r|e] st]; eexists; reflexivity.
Qed.

Lemma amounts_scale_exactly_witness :
  parseUnits "-12.5" 18 = Normal (- 12500000000000000000)
  /\ exists o,
       w_trace (snd (getAssetValueInUSD Mock.echo "0xDA1" "-12.5" Mock.w0))
       = w_trace Mock.w0
         ++ [(ReqCall "getAssetValueInUSD"
                [AStr "0xDA1"; ABig (- 12500000000000000000)], o)].
Proof.
  destruct (amounts_scale_exactly Mock.echo true
              (list_ascii_of_string "12") (Some (list_ascii_of_string "5"))
              Mock.w0 eq_refl eq_refl
              ltac:(discriminate) ltac:(vm_compute; lia) ltac:(vm_compute; lia)
              eq_refl)
    as (Hp & _ & Hget).
  split; [exact Hp|exact (Hget "0xDA1"%string)].
Defined.

(** X4.  A string that is no decimal literal (an empty string, a lone
    sign or dot, an exponent, a thousands separator, a second dot, ...)
    is refused as an argument: the six state-changing methods that take
    an amount, and [getAssetValueInUSD], reject with the invalid-argument
    fault of the scaling and leave the world as it was, nothing sent. *)
Theorem malformed_amount_stops_the_call
    {chain tx filter log : Type} (backend : Backend chain tx filter log)
    (amount : string) (w : @world chain tx filter) :
  fractional_digits amount = None ->
  (forall c, amount_of c = Some amount ->
     run_write backend c w = (Throw invalid_value, w))
  /\ (forall token,
        getAssetValueInUSD backend token amount w = (Throw invalid_value, w)).
Proof.
  intros Hn. pose proof (parseUnits_not_literal amount 18 Hn) as Hp. split.
  - intros c Hc. pose proof (args_of_amount c amount Hc) as Ha.
    rewrite Hp in Ha. rewrite run_write_submit, Ha. reflexivity.
  - intros token. unfold getAssetValueInUSD, bind, eval. rewrite Hp. reflexivity.
Qed.

Lemma malformed_amount_stops_the_call_witness :
  repayLoan Mock.echo "0xDA1" "1e18" Mock.w0 = (Throw invalid_value, Mock.w0)
  /\ getAssetValueInUSD Mock.echo "0xDA1" "1,5" Mock.w0
     = (Throw invalid_value, Mock.w0).
Proof.
  split.
  - apply (proj1 (malformed_amount_stops_the_call Mock.echo "1e18" Mock.w0 eq_refl)
             (RepayLoan "0xDA1" "1e18") eq_refl).
  - apply (proj2 (malformed_amount_stops_the_call Mock.echo "1,5" Mock.w0 eq_refl)).
Defined.

End AmountsSpec.

(* ===================================================================== *)
(** ** The event query, beyond the dropped entries *)
(* ===================================================================== *)

Module EventsSpec.
Import JS Ethers Adapter Decimal Spec Coverage DigitFacts EthersFacts AdapterSpec.

Lemma formatUnits_in_range v decimals s :
  formatUnits v decimals = Normal s -> in_range 512 v = true.
Proof.
  unfold formatUnits, fromValue_toString.
  destruct (negb (format_ok decimals 512)); [discriminate|].
  destruct (in_range 512 v); [reflexivity|discriminate].
Qed.

(** The rounding of a non-negative integer below [2^k] stays within
    [0] and [2^k]. *)
Lemma round_binary64_bound n k :
  0 <= n < 2 ^ k -> 0 <= round_binary64 n <= 2 ^ k.
Proof.
  intros [H0 Hk]. unfold round_binary64.
  destruct (Z.leb_spec (Z.log2 n - 52) 0) as [_|He]; [lia|].
  set (e := Z.log2 n - 52) in *.
  assert (Hn : 0 < n).
  { destruct (Z.eq_dec n 0) as [->|]; [cbn in He; lia|lia]. }
  pose proof (Z.log2_spec n Hn) as [Hlo Hhi].
  assert (Hpe : 0 < 2 ^ e) by (apply Z.pow_pos_nonneg; lia).
  assert (Hsplit : 2 ^ Z.succ (Z.log2 n) = 2 ^ 53 * 2 ^ e).
  { rewrite <- Z.pow_add_r by lia. f_equal. lia. }
  assert (Hq : 0 <= n / 2 ^ e < 2 ^ 53).
  { split; [apply Z.div_pos; lia|].
    apply Z.div_lt_upper_bound; [lia|]. rewrite Z.mul_comm, <- Hsplit. exact Hhi. }
  assert (Hkk : 2 ^ 53 * 2 ^ e <= 2 ^ k).
  { rewrite <- Hsplit.
    destruct (Z.le_gt_cases (Z.succ (Z.log2 n)) k) as [Hle|Hgt].
    - apply Z.pow_le_mono_r; lia.
    - exfalso.
      assert (2 ^ k <= 2 ^ Z.log2 n) by (apply Z.pow_le_mono_r; lia).
      lia. }
  set (q := n / 2 ^ e) in *.
  assert (Hq' : forall q', 0 <= q' <= q + 1 -> 0 <= q' * 2 ^ e <= 2 ^ k).
  { intros q' [Hq0 Hq1]. split; [nia|].
    eapply Z.le_trans; [|exact Hkk].
    apply Z.mul_le_mono_nonneg_r; lia. }
  destruct (n mod 2 ^ e <? 2 ^ (e - 1)); [apply Hq'; lia|].
  destruct (2 ^ (e - 1) <? n mod 2 ^ e); [apply Hq'; lia|].
  destruct (Z.even q); apply Hq'; lia.
Qed.

Lemma to_number_nonneg z k :
  0 <= z < 2 ^ k -> k < 1024 ->
  exists m, to_number z = Finite m /\ 0 <= m <= 2 ^ k.
Proof.
  intros Hz Hk. unfold to_number.
  rewrite Z.abs_eq by lia.
  pose proof (round_binary64_bound z k Hz) as Hm.
  assert (2 ^ k < 2 ^ 1024) by (apply Z.pow_lt_mono_r; lia).
  destruct (Z.leb_spec (2 ^ 1024) (round_binary64 z)); [lia|].
  destruct (Z.ltb_spec z 0); [lia|]. eexists. split; [reflexivity|exact Hm].
Qed.

Section Query.
Context {chain tx filter log : Type}.
Variable backend : Backend chain tx filter log.
Variable eventName : string.

(** The callback of [events.map] touches the console only, once for an
    entry that does not decode. *)
Lemma decode_world l (w : @world chain tx filter) :
  decode backend eventName l w
  = (Normal (decoded backend eventName l),
     mkWorld (w_chain w) (w_trace w) (w_console w ++ drop_line backend l)).
Proof.
  destruct w as [st tr con].
  unfold decode, decoded, drop_line, try_catch, bind, eval, console, ret.
  cbn [w_chain w_trace w_console].
  destruct (parseLog backend l) as [[args|]|e]; cbn; try reflexivity.
  - destruct (formatUnits (a_amount args) 18); cbn;
      rewrite ?app_nil_r; reflexivity.
Qed.

Lemma mapM_decode_world logs : forall w : @world chain tx filter,
  mapM (decode backend eventName) logs w
  = (Normal (map (decoded backend eventName) logs),
     mkWorld (w_chain w) (w_trace w)
       (w_console w ++ flat_map (drop_line backend) logs)).
Proof.
  induction logs as [|l logs IH]; intros w.
  - destruct w. cbn. rewrite app_nil_r. reflexivity.
  - cbn [mapM map flat_map]. unfold bind at 1. rewrite decode_world.
    unfold bind at 1. rewrite IH. cbn [w_chain w_trace w_console ret].
    rewrite app_assoc. reflexivity.
Qed.

(** One console line for each entry left out. *)
Lemma drop_lines_count logs :
  (length (filter_non_null (map (decoded backend eventName) logs))
   + length (flat_map (drop_line backend) logs) = length logs)%nat.
Proof.
  induction logs as [|l logs IH]; [reflexivity|].
  cbn [map flat_map filter_non_null length]. rewrite length_app.
  assert (E : (match decoded backend eventName l with
               | Some _ => 1 | None => 0 end
               + length (drop_line backend l) = 1)%nat).
  { unfold decoded, drop_line.
    destruct (parseLog backend l) as [[args|]|e]; try reflexivity.
    destruct (formatUnits (a_amount args) 18); reflexivity. }
  destruct (decoded backend eventName l); cbn [length] in *; lia.
Qed.

Lemma queryFilterEventByAccount_world acount fromBlock toBlock
    (w : @world chain tx filter) f logs st :
  let tb := match toBlock with Some b => b | None => BlockName "latest" end in
  filters backend eventName acount = Normal f ->
  queryFilter backend f fromBlock tb (w_chain w) = (Normal logs, st) ->
  queryFilterEventByAccount backend acount eventName fromBlock toBlock w
  = (Normal (filter_non_null (map (decoded backend eventName) logs)),
     mkWorld st (w_trace w ++ [(ReqQueryFilter f fromBlock tb, None)])
       (w_console w ++ flat_map (drop_line backend) logs)).
Proof.
  cbv zeta. intros Hf Hq. unfold queryFilterEventByAccount.
  unfold bind at 1. unfold eval. rewrite Hf.
  unfold bind at 1. unfold perform. rewrite Hq.
  unfold bind at 1. rewrite mapM_decode_world. reflexivity.
Qed.

Lemma In_filter_non_null ev logs :
  In ev (filter_non_null (map (decoded backend eventName) logs)) ->
  exists l, In l logs /\ decoded backend eventName l = Some ev.
Proof.
  induction logs as [|l logs IH]; [contradiction|].
  cbn [map filter_non_null].
  destruct (decoded backend eventName l) as [ev'|] eqn:E.
  - intros [->|H].
    + exists l. split; [left; reflexivity|exact E].
    + destruct (IH H) as (l' & Hin & Hd). exists l'. split; [right|]; assumption.
  - intros H. destruct (IH H) as (l' & Hin & Hd).
    exists l'. split; [right|]; assumption.
Qed.

End Query.

(** X5.  A failure to retrieve the logs is not swallowed like a failure
    to decode one: when the filter cannot be built (no event of that
    name) [queryFilterEventByAccount] rejects with that fault, the world
    untouched and nothing sent; when the query itself fails it rejects
    with the fault of the query, after this one request and without a
    line on the console. *)
Theorem retrieval_failure_rejects
    {chain tx filter log : Type} (backend : Backend chain tx filter log)
    (acount eventName : string) (fromBlock : number) (toBlock : option blockTag)
    (w : @world chain tx filter) :
  let tb := match toBlock with Some b => b | None => BlockName "latest" end in
  let result :=
    queryFilterEventByAccount backend acount eventName fromBlock toBlock w in
  (forall e, filters backend eventName acount = Throw e -> result = (Throw e, w))
  /\ (forall f e st,
        filters backend eventName acount = Normal f ->
        queryFilter backend f fromBlock tb (w_chain w) = (Throw e, st) ->
        result = (Throw e, after w st [(ReqQueryFilter f fromBlock tb, Some e)])).
Proof.
  cbv zeta. unfold queryFilterEventByAccount, bind, eval, perform, after. split.
  - intros e ->. reflexivity.
  - intros f e st -> ->. reflexivity.
Qed.

Lemma retrieval_failure_rejects_witness :
  queryFilterEventByAccount no_such_event "0xA11CE" "Deposited" (Finite 0) None
    Mock.w0
  = (Throw (mkExn "TypeError" "filters[eventName] is not a function"), Mock.w0)
  /\ queryFilterEventByAccount Mock.down "0xA11CE" "Deposited" (Finite 0) None
       Mock.w0
     = (Throw (mkExn "NETWORK_ERROR" "could not detect network"),
        after Mock.w0 tt
          [(ReqQueryFilter ("Deposited"%string, "0xA11CE"%string) (Finite 0)
              (BlockName "latest"),
            Some (mkExn "NETWORK_ERROR" "could not detect network"))]).
Proof.
  split.
  - apply (proj1 (retrieval_failure_rejects no_such_event "0xA11CE" "Deposited"
                    (Finite 0) None Mock.w0)).
    reflexivity.
  - apply (proj2 (retrieval_failure_rejects Mock.down "0xA11CE" "Deposited"
                    (Finite 0) None Mock.w0)
             ("Deposited"%string, "0xA11CE"%string)
             (mkExn "NETWORK_ERROR" "could not detect network") tt);
      reflexivity.
Defined.

(** X6.  Once the logs are retrieved, [queryFilterEventByAccount] has
    made one request, the query, and decoding makes none; the chain is
    left as the query left it; and the console has gained exactly one
    line for each entry left out: the events returned and the lines
    written add up to the number of logs, so the result is never longer
    than the batch and nothing is dropped silently. *)
Theorem each_dropped_entry_is_logged
    {chain tx filter log : Type} (backend : Backend chain tx filter log)
    (acount eventName : string) (fromBlock : number) (toBlock : option blockTag)
    (w : @world chain tx filter) (f : filter) (logs : list log) (st : chain) :
  let tb := match toBlock with Some b => b | None => BlockName "latest" end in
  filters backend eventName acount = Normal f ->
  queryFilter backend f fromBlock tb (w_chain w) = (Normal logs, st) ->
  exists evs lines,
    queryFilterEventByAccount backend acount eventName fromBlock toBlock w
    = (Normal evs,
       mkWorld st (w_trace w ++ [(ReqQueryFilter f fromBlock tb, None)])
         (w_console w ++ lines))
    /\ (length evs + length lines = length logs)%nat.
Proof.
  cbv zeta. intros Hf Hq.
  exists (filter_non_null (map (decoded backend eventName) logs)),
         (flat_map (drop_line backend) logs).
  split.
  - apply (queryFilterEventByAccount_world backend eventName acount fromBlock
             toBlock w f logs st Hf Hq).
  - apply drop_lines_count.
Qed.

Lemma each_dropped_entry_is_logged_witness :
  exists evs lines,
    queryFilterEventByAccount Mock.echo "0xA11CE" "Deposited" (Finite 0) None
      Mock.w0
    = (Normal evs,
       mkWorld tt
         (w_trace Mock.w0
          ++ [(ReqQueryFilter ("Deposited"%string, "0xA11CE"%string) (Finite 0)
                 (BlockName "latest"), None)])
         (w_console Mock.w0 ++ lines))
    /\ (length evs + length lines = length [1; 2; 3]%nat)%nat.
Proof.
  apply (each_dropped_entry_is_logged Mock.echo "0xA11CE" "Deposited" (Finite 0)
           None Mock.w0 ("Deposited"%string, "0xA11CE"%string) [1; 2; 3]%nat tt);
    reflexivity.
Defined.

(** X7.  Every event [queryFilterEventByAccount] returns comes from one
    of the retrieved logs, whose arguments [parseLog] decoded: it carries
    the event name the caller asked for, the user and the token of these
    arguments, and as amount the canonical decimal string that scales
    back to the on-chain amount. *)
Theorem events_carry_the_log_arguments
    {chain tx filter log : Type} (backend : Backend chain tx filter log)
    (acount name : string) (fromBlock : number) (toBlock : option blockTag)
    (w : @world chain tx filter) (f : filter) (logs : list log) (st : chain)
    (evs : list Events) (ev : Events) :
  filters backend name acount = Normal f ->
  queryFilter backend f fromBlock
    (match toBlock with Some b => b | None => BlockName "latest" end)
    (w_chain w) = (Normal logs, st) ->
  fst (queryFilterEventByAccount backend acount name fromBlock toBlock w)
  = Normal evs ->
  In ev evs ->
  eventName ev = name
  /\ exists l args,
       In l logs /\ parseLog backend l = Normal (Some args)
       /\ user ev = a_user args /\ token ev = a_token args
       /\ canonical_decimal 18 (amount ev) = true
       /\ parseUnits (amount ev) 18 = Normal (a_amount args).
Proof.
  intros Hf Hq Hres Hin.
  rewrite (queryFilterEventByAccount_spec backend name acount fromBlock toBlock
             w f logs st Hf Hq) in Hres.
  inversion Hres. subst evs. clear Hres.
  destruct (In_filter_non_null backend name ev logs Hin) as (l & Hl & Hd).
  unfold decoded in Hd.
  destruct (parseLog backend l) as [[args|]|e] eqn:Ep; try discriminate.
  destruct (formatUnits (a_amount args) 18) as [s|e] eqn:Ef; [|discriminate].
  inversion Hd. subst ev. clear Hd. cbn [eventName user token amount].
  split; [reflexivity|]. exists l, args. repeat split; try assumption.
  - apply (formatUnits_canonical (a_amount args) 18 s ltac:(lia) Ef).
  - destruct (parse_format (a_amount args) 18 ltac:(lia)
                (formatUnits_in_range _ _ _ Ef)) as (s' & Hf' & Hp).
    rewrite Ef in Hf'. inversion Hf'. subst s'. exact Hp.
Qed.

Lemma events_carry_the_log_arguments_witness :
  let ev := mkEvents "0xA11CE" "0xDA1" "1.5" (Finite 1700000600000) "Deposited" in
  eventName ev = "Deposited"%string
  /\ exists l args,
       In l [1; 2; 3]%nat /\ parseLog Mock.echo l = Normal (Some args)
       /\ user ev = a_user args /\ token ev = a_token args
       /\ canonical_decimal 18 (amount ev) = true
       /\ parseUnits (amount ev) 18 = Normal (a_amount args).
Proof.
  apply (events_carry_the_log_arguments Mock.echo "0xA11CE" "Deposited" (Finite 0)
           None Mock.w0 ("Deposited"%string, "0xA11CE"%string) [1; 2; 3]%nat tt
           [mkEvents "0xA11CE" "0xDA1" "5.0" (Finite 1700000000000) "Deposited";
            mkEvents "0xA11CE" "0xDA1" "1.5" (Finite 1700000600000) "Deposited"]);
    try reflexivity.
  right. left. reflexivity.
Defined.

(** X8.  An entry is left out only because of [parseLog] or of an amount
    outside the 512-bit format: a log whose arguments [parseLog] decodes
    with a [uint256] amount always gives an event, with a finite,
    non-negative [timeStamp] when the on-chain timestamp is a [uint256].
    So a batch of such logs comes back whole, one event per log, and
    nothing is written to the console. *)
Theorem decodable_logs_all_survive
    {chain tx filter log : Type} (backend : Backend chain tx filter log)
    (acount name : string) (fromBlock : number) (toBlock : option blockTag)
    (w : @world chain tx filter) (f : filter) (logs : list log) (st : chain) :
  filters backend name acount = Normal f ->
  queryFilter backend f fromBlock
    (match toBlock with Some b => b | None => BlockName "latest" end)
    (w_chain w) = (Normal logs, st) ->
  (forall l, In l logs ->
     exists args, parseLog backend l = Normal (Some args)
                  /\ uint256 (a_amount args) /\ uint256 (a_timeStamp args)) ->
  exists evs,
    fst (queryFilterEventByAccount backend acount name fromBlock toBlock w)
    = Normal evs
    /\ length evs = length logs
    /\ w_console (snd (queryFilterEventByAccount backend acount name fromBlock
                         toBlock w)) = w_console w
    /\ (forall ev, In ev evs ->
          exists z, timeStamp ev = Finite z /\ 0 <= z <= 2 ^ 266).
Proof.
  intros Hf Hq Hall.
  pose proof (queryFilterEventByAccount_world backend name acount fromBlock
                toBlock w f logs st Hf Hq) as Hw.
  cbv zeta in Hw. rewrite Hw. cbn [fst snd w_console].
  assert (Hnone : forall l, In l logs -> drop_line backend l = []).
  { intros l Hl. destruct (Hall l Hl) as (args & Hp & Ha & _).
    unfold drop_line. rewrite Hp.
    destruct (parse_format (a_amount args) 18 ltac:(lia)
                (uint256_in_range _ Ha)) as (s & Hs & _).
    rewrite Hs. reflexivity. }
  assert (Hlines : flat_map (drop_line backend) logs = []).
  { clear - Hnone. induction logs as [|l logs IH]; [reflexivity|].
    cbn [flat_map]. rewrite (Hnone l (or_introl eq_refl)).
    apply IH. intros l' Hl'. apply Hnone. right. exact Hl'. }
  eexists. split; [reflexivity|]. split; [|split].
  - pose proof (drop_lines_count backend name logs) as Hc.
    rewrite Hlines in Hc. cbn [length] in Hc. lia.
  - rewrite Hlines. apply app_nil_r.
  - intros ev Hin.
    destruct (In_filter_non_null backend name ev logs Hin) as (l & Hl & Hd).
    destruct (Hall l Hl) as (args & Hp & _ & Ht).
    unfold decoded in Hd. rewrite Hp in Hd.
    destruct (formatUnits (a_amount args) 18); [|discriminate].
    inversion Hd. subst ev. cbn [timeStamp]. unfold Number_of_bigint.
    destruct (to_number_nonneg (a_timeStamp args) 256 Ht ltac:(lia))
      as (m & Hm & Hm0).
    rewrite Hm. cbn [number_mul].
    destruct (to_number_nonneg (m * 1000) 266) as (z & Hz & Hz0); [|lia|].
    + split; [lia|].
      replace (2 ^ 266) with (2 ^ 256 * 2 ^ 10)
        by (rewrite <- Z.pow_add_r by lia; reflexivity).
      assert (0 < 2 ^ 256) by (apply Z.pow_pos_nonneg; lia).
      change (2 ^ 10) with 1024. lia.
    + exists z. split; assumption.
Qed.

Lemma decodable_logs_all_survive_witness :
  exists evs,
    fst (queryFilterEventByAccount Mock.archive "0xA11CE" "Deposited" (Finite 0)
           None Mock.w0) = Normal evs
    /\ length evs = length [4]%nat
    /\ w_console (snd (queryFilterEventByAccount Mock.archive "0xA11CE"
                         "Deposited" (Finite 0) None Mock.w0))
       = w_console Mock.w0
    /\ (forall ev, In ev evs ->
          exists z, timeStamp ev = Finite z /\ 0 <= z <= 2 ^ 266).
Proof.
  apply (decodable_logs_all_survive Mock.archive "0xA11CE" "Deposited" (Finite 0)
           None Mock.w0 ("Deposited"%string, "0xA11CE"%string) [4]%nat tt);
    try reflexivity.
  intros l [<-|[]].
  exists (mkArgs "0xA11CE" "0xDA1" 1000000000000000000 9007199254740993).
  split; [reflexivity|]. unfold uint256.
  split; split; vm_compute; first [reflexivity | discriminate].
Defined.

End EventsSpec.

(* ===================================================================== *)
(** ** The observer, render after render *)
(* ===================================================================== *)

Module ObserverRuns.
Import JS Observer Spec Coverage ObserverSpec.

Lemma handle_eqb_eq a b : handle_eqb a b = true <-> a = b.
Proof.
  destruct a as [x|], b as [y|]; cbn;
    try (split; [discriminate|discriminate]); [|tauto].
  rewrite Nat.eqb_eq. split; [intros ->; reflexivity|intros E; inversion E; auto].
Qed.

Lemma account_eqb_eq a b : account_eqb a b = true <-> a = b.
Proof.
  destruct a as [x|], b as [y|]; cbn;
    try (split; [discriminate|discriminate]); [|tauto].
  rewrite String.eqb_eq. split; [intros ->; reflexivity|intros E; inversion E; auto].
Qed.

Lemma deps_changed_iff s c a :
  deps_changed s c a = false <-> deps s = Some (c, a).
Proof.
  unfold deps_changed. destruct (deps s) as [[c' a']|].
  - rewrite negb_false_iff, andb_true_iff, handle_eqb_eq, account_eqb_eq.
    split; [intros [-> ->]; reflexivity|intros E; inversion E; auto].
  - split; discriminate.
Qed.

Lemma effect_deps s c a : deps (effect s c a) = Some (c, a).
Proof.
  unfold effect. destruct c; [|reflexivity]. destruct a; [|reflexivity].
  destruct (String.eqb _ _); reflexivity.
Qed.

Lemma settle_deps s id r : deps (settle s id r) = deps s.
Proof.
  unfold settle. destruct (is_pending id s); [|reflexivity].
  destruct r; reflexivity.
Qed.

Lemma In_is_pending f s : In f (pending s) -> is_pending (f_id f) s = true.
Proof.
  intros H. unfold is_pending. apply existsb_exists.
  exists f. split; [exact H|apply Nat.eqb_refl].
Qed.

Lemma not_pending_iff id s :
  is_pending id s = false <-> ~ In id (map f_id (pending s)).
Proof.
  unfold is_pending. split.
  - intros H Hin. apply in_map_iff in Hin. destruct Hin as (f & Hid & Hf).
    assert (E : existsb (fun f => Nat.eqb (f_id f) id) (pending s) = true).
    { apply existsb_exists. exists f. split; [exact Hf|].
      apply Nat.eqb_eq. exact Hid. }
    congruence.
  - intros H. destruct (existsb _ _) eqn:E; [|reflexivity].
    exfalso. apply H. apply existsb_exists in E. destruct E as (f & Hf & Hid).
    apply in_map_iff. exists f. split; [apply Nat.eqb_eq; exact Hid|exact Hf].
Qed.

Lemma remove_pending_ids id l :
  map f_id (remove_pending id l)
  = filter (fun i => negb (Nat.eqb i id)) (map f_id l).
Proof.
  induction l as [|f l IH]; [reflexivity|].
  cbn [remove_pending filter map].
  destruct (negb (f_id f =? id)%nat); cbn [map]; fold (remove_pending id l);
    rewrite IH; reflexivity.
Qed.

Lemma settle_next_id s id r : next_id (settle s id r) = next_id s.
Proof.
  unfold settle. destruct (is_pending id s); [|reflexivity].
  destruct r; reflexivity.
Qed.

Lemma settle_pending s id r :
  pending (settle s id r) = remove_pending id (pending s).
Proof.
  unfold settle. destruct (is_pending id s) eqn:E.
  - destruct r; reflexivity.
  - symmetry. unfold remove_pending.
    apply not_pending_iff in E.
    induction (pending s) as [|f l IH]; [reflexivity|].
    cbn [filter]. cbn [map] in E.
    destruct (Nat.eqb_spec (f_id f) id) as [Heq|Hne].
    + exfalso. apply E. left. exact Heq.
    + cbn [negb]. f_equal. apply IH. intros H. apply E. right. exact H.
Qed.

Lemma fresh_ids_init : fresh_ids init.
Proof. split; [intros f []|constructor]. Qed.

Lemma fresh_ids_step s ev : fresh_ids s -> fresh_ids (step s ev).
Proof.
  intros [Hlt Hnd]. destruct ev as [c a|id r]; cbn [step].
  - destruct (deps_changed s c a); [|split; assumption].
    destruct (waiting c a) eqn:Ew.
    + destruct (effect_waiting s c a Ew) as (_ & Hp & _).
      assert (Hn : next_id (effect s c a) = next_id s).
      { unfold waiting, falsy_account in Ew. unfold effect.
        destruct c; [|reflexivity]. destruct a; [|reflexivity].
        rewrite Ew. reflexivity. }
      split; rewrite Hp; [rewrite Hn|]; assumption.
    + unfold waiting, falsy_account in Ew.
      destruct c as [h|]; [|discriminate]. destruct a as [acc|]; [|discriminate].
      destruct (effect_ready s h acc Ew) as (_ & Hp & _).
      assert (Hn : next_id (effect s (Some h) (Some acc)) = S (next_id s)).
      { unfold effect. rewrite Ew. reflexivity. }
      split; rewrite Hp.
      * intros f Hf. rewrite Hn. apply in_app_or in Hf.
        destruct Hf as [Hf|[<-|[]]]; [specialize (Hlt f Hf); lia|cbn; lia].
      * rewrite map_app. cbn [map f_id].
        apply NoDup_app; [exact Hnd|repeat constructor; intros []|].
        intros i Hi [<-|[]]. apply in_map_iff in Hi.
        destruct Hi as (f & Hid & Hf). specialize (Hlt f Hf). lia.
  - split.
    + intros f Hf. rewrite settle_next_id. apply Hlt.
      eapply settle_pending_incl. exact Hf.
    + rewrite settle_pending, remove_pending_ids. apply NoDup_filter. exact Hnd.
Qed.

Lemma fresh_ids_run evs : forall s, fresh_ids s -> fresh_ids (run s evs).
Proof.
  induction evs as [|ev evs IH]; intros s Hs; [exact Hs|].
  cbn [run fold_left]. apply IH. apply fresh_ids_step. exact Hs.
Qed.

Lemma next_id_step s ev : (next_id s <= next_id (step s ev))%nat.
Proof.
  destruct ev as [c a|id r]; cbn [step].
  - destruct (deps_changed s c a); [|lia].
    unfold effect. destruct c; [|cbn; lia]. destruct a; [|cbn; lia].
    destruct (String.eqb _ _); cbn; lia.
  - rewrite settle_next_id. lia.
Qed.

(** An id below the next one that is not pending stays so. *)
Lemma settled_step s ev id :
  (id < next_id s)%nat -> is_pending id s = false ->
  (id < next_id (step s ev))%nat /\ is_pending id (step s ev) = false.
Proof.
  intros Hlt Hnp. split; [pose proof (next_id_step s ev); lia|].
  apply not_pending_iff. apply not_pending_iff in Hnp.
  destruct ev as [c a|id' r]; cbn [step].
  - destruct (deps_changed s c a); [|exact Hnp].
    destruct (waiting c a) eqn:Ew.
    + destruct (effect_waiting s c a Ew) as (_ & Hp & _). rewrite Hp. exact Hnp.
    + unfold waiting, falsy_account in Ew.
      destruct c as [h|]; [|discriminate]. destruct a as [acc|]; [|discriminate].
      destruct (effect_ready s h acc Ew) as (_ & Hp & _).
      rewrite Hp, map_app. intros Hin. apply in_app_or in Hin.
      destruct Hin as [Hin|[E|[]]]; [auto|]. cbn in E. lia.
  - rewrite settle_pending, remove_pending_ids. intros Hin.
    apply filter_In in Hin. tauto.
Qed.

Lemma settled_run evs : forall s id,
  (id < next_id s)%nat -> is_pending id s = false ->
  is_pending id (run s evs) = false.
Proof.
  induction evs as [|ev evs IH]; intros s id Hlt Hnp; [exact Hnp|].
  cbn [run fold_left].
  destruct (settled_step s ev id Hlt Hnp) as [Hlt' Hnp'].
  apply IH; assumption.
Qed.

(** X9.  Rendering again with the same contract handle and the same
    account does nothing: the state after the second render is the state
    after the first, so no second read is sent, whatever happened
    before. *)
Theorem rerender_with_same_deps_is_idle
    (s : state) (contract : option handle) (acc : account) :
  step (step s (Render contract acc)) (Render contract acc)
  = step s (Render contract acc).
Proof.
  cbn [step]. destruct (deps_changed s contract acc) eqn:E.
  - assert (E' : deps_changed (effect s contract acc) contract acc = false)
      by (apply deps_changed_iff, effect_deps).
    rewrite E'. reflexivity.
  - rewrite E. reflexivity.
Qed.

(** X10.  In a reachable state, a render with a contract handle and a
    non-empty account that differ from those of the last effect sends
    exactly one read, for this handle and this account, under an id no
    pending read has, and leaves the published value as it is. *)
Theorem changed_deps_send_one_read
    (evs : list event) (h : handle) (acc : string) :
  let s := run init evs in
  let s' := step s (Render (Some h) (Some acc)) in
  acc <> ""%string ->
  deps s <> Some (Some h, Some acc) ->
  issued s' = issued s ++ [(h, acc)]
  /\ pending s' = pending s ++ [mkFetch (next_id s) h acc]
  /\ ~ In (next_id s) (map f_id (pending s))
  /\ healthFactor s' = healthFactor s
  /\ deps s' = Some (Some h, Some acc).
Proof.
  cbv zeta. set (s := run init evs). intros Hne Hd.
  assert (Hc : deps_changed s (Some h) (Some acc) = true).
  { destruct (deps_changed s (Some h) (Some acc)) eqn:E; [reflexivity|].
    apply deps_changed_iff in E. exfalso. apply Hd. exact E. }
  assert (He : String.eqb acc "" = false) by (apply String.eqb_neq; exact Hne).
  cbn [step]. rewrite Hc.
  destruct (effect_ready s h acc He) as (Hh & Hp & Hi).
  repeat split; try assumption.
  - destruct (fresh_ids_run evs init fresh_ids_init) as [Hlt _].
    fold s in Hlt. intros Hin. apply in_map_iff in Hin.
    destruct Hin as (f & Hid & Hf). specialize (Hlt f Hf). lia.
  - apply effect_deps.
Qed.

Lemma changed_deps_send_one_read_witness :
  let s := run init [Render (Some 1%nat) None;
                     Render (Some 1%nat) (Some "0xA11CE"%string)] in
  let s' := step s (Render (Some 1%nat) (Some "0xB0B"%string)) in
  issued s' = issued s ++ [(1%nat, "0xB0B"%string)]
  /\ pending s' = pending s ++ [mkFetch (next_id s) 1%nat "0xB0B"]
  /\ ~ In (next_id s) (map f_id (pending s))
  /\ healthFactor s' = healthFactor s
  /\ deps s' = Some (Some 1%nat, Some "0xB0B"%string).
Proof.
  apply (changed_deps_send_one_read
           [Render (Some 1%nat) None; Render (Some 1%nat) (Some "0xA11CE"%string)]
           1%nat "0xB0B"); discriminate.
Defined.

(** X11.  A read settles once: in a reachable state, after a pending
    read has settled, settling the same read again has no effect,
    however many renders and other settlements come in between. *)
Theorem a_read_settles_once
    (before between : list event) (id : nat) (r r' : completion string) :
  let s := run init before in
  is_pending id s = true ->
  let s1 := run (step s (Settle id r)) between in
  step s1 (Settle id r') = s1.
Proof.
  cbv zeta. set (s := run init before). intros Hp.
  destruct (fresh_ids_run before init fresh_ids_init) as [Hlt _]. fold s in Hlt.
  destruct (is_pending_In id s Hp) as (f & Hf & Hid).
  specialize (Hlt f Hf). rewrite Hid in Hlt.
  assert (Hnp : is_pending id (step s (Settle id r)) = false).
  { apply not_pending_iff. cbn [step].
    rewrite settle_pending, remove_pending_ids. intros Hin.
    apply filter_In in Hin. destruct Hin as [_ Hne].
    rewrite Nat.eqb_refl in Hne. discriminate Hne. }
  assert (Hlt' : (id < next_id (step s (Settle id r)))%nat).
  { cbn [step]. rewrite settle_next_id. exact Hlt. }
  pose proof (settled_run between _ id Hlt' Hnp) as Hfin.
  cbn [step] in Hfin |- *. unfold settle at 1. rewrite Hfin. reflexivity.
Qed.

Lemma a_read_settles_once_witness :
  let s1 := run (step (run init [Render (Some 1%nat) (Some "0xA11CE"%string)])
                   (Settle 0 (Normal "1.5"%string)))
              [Render (Some 1%nat) (Some "0xB0B"%string)] in
  step s1 (Settle 0 (Normal "9.9"%string)) = s1.
Proof.
  apply (a_read_settles_once [Render (Some 1%nat) (Some "0xA11CE"%string)]
           [Render (Some 1%nat) (Some "0xB0B"%string)] 0%nat
           (Normal "1.5"%string) (Normal "9.9"%string)).
  reflexivity.
Defined.

(** X12.  A change of handle or account cancels nothing: a read that is
    pending in a reachable state stays pending through a render for
    another handle or account, and when it then resolves its value is
    published although the dependencies are the new ones.  The value
    shown can be the one of the account before. *)
Theorem stale_read_is_published
    (evs : list event) (f : fetch) (h : handle) (acc v : string) :
  let s := run init evs in
  let s' := run s [Render (Some h) (Some acc); Settle (f_id f) (Normal v)] in
  In f (pending s) ->
  acc <> ""%string ->
  (h, acc) <> (f_contract f, f_account f) ->
  healthFactor s' = Some v
  /\ deps s' = Some (Some h, Some acc)
  /\ deps s' <> Some (Some (f_contract f), Some (f_account f)).
Proof.
  cbv zeta. set (s := run init evs). intros Hf Hne Hdiff.
  cbn [run fold_left].
  set (s1 := step s (Render (Some h) (Some acc))).
  assert (H1 : In f (pending s1) /\ deps s1 = Some (Some h, Some acc)).
  { subst s1. cbn [step].
    destruct (deps_changed s (Some h) (Some acc)) eqn:E.
    - assert (He : String.eqb acc "" = false) by (apply String.eqb_neq; exact Hne).
      destruct (effect_ready s h acc He) as (_ & Hp & _).
      rewrite Hp. split; [apply in_or_app; left; exact Hf|apply effect_deps].
    - split; [exact Hf|apply deps_changed_iff; exact E]. }
  destruct H1 as [Hf1 Hd1].
  assert (Hd : deps (step s1 (Settle (f_id f) (Normal v)))
               = Some (Some h, Some acc)).
  { cbn [step]. rewrite settle_deps. exact Hd1. }
  split; [|split; [exact Hd|]].
  - cbn [step]. unfold settle. rewrite (In_is_pending f s1 Hf1). reflexivity.
  - rewrite Hd. intros E. inversion E. apply Hdiff. congruence.
Qed.

Lemma stale_read_is_published_witness :
  let s' := run (run init [Render (Some 1%nat) (Some "0xA11CE"%string)])
              [Render (Some 1%nat) (Some "0xB0B"%string);
               Settle 0 (Normal "1.5"%string)] in
  healthFactor s' = Some "1.5"%string
  /\ deps s' = Some (Some 1%nat, Some "0xB0B"%string)
  /\ deps s' <> Some (Some 1%nat, Some "0xA11CE"%string).
Proof.
  apply (stale_read_is_published
           [Render (Some 1%nat) (Some "0xA11CE"%string)]
           (mkFetch 0 1%nat "0xA11CE") 1%nat "0xB0B" "1.5").
  - left. reflexivity.
  - discriminate.
  - intros E. inversion E.
Defined.



End ObserverRuns.

(* ===================================================================== *)
(** ** What reaches the contract *)
(* ===================================================================== *)

Module CallsSpec.
Import JS Ethers Adapter Decimal Spec Coverage DigitFacts EthersFacts AdapterSpec.
Import AmountsSpec.

Lemma app_cons_neq {A} (l r : list A) (x : A) : l ++ x :: r <> l.
Proof.
  intros E. apply (f_equal (@length A)) in E.
  rewrite length_app in E. cbn in E. lia.
Qed.

Lemma args_of_no_amount c : amount_of c = None -> exists args, args_of c = Normal args.
Proof.
  destruct c; cbn [amount_of args_of]; intros E; try discriminate E;
    eexists; reflexivity.
Qed.

(** X14.  A state-changing method ends without having sent anything
    exactly when it takes an amount and the amount does not scale: the
    four methods without an amount always submit their transaction, and
    the six others give up before the submission for no other reason than
    their amount string. *)
Theorem nothing_sent_only_for_a_bad_amount
    {chain tx filter log : Type} (backend : Backend chain tx filter log)
    (c : write_call) (w : @world chain tx filter) :
  w_trace (snd (run_write backend c w)) = w_trace w
  <-> exists amount e,
        amount_of c = Some amount /\ parseUnits amount 18 = Throw e.
Proof.
  rewrite run_write_submit. split.
  - destruct (amount_of c) as [amount|] eqn:Ea.
    + pose proof (args_of_amount c amount Ea) as Ha.
      destruct (parseUnits amount 18) as [a|e] eqn:Ep.
      * destruct Ha as (args & Hargs & _). rewrite Hargs, submit_spec.
        destruct (call_tx backend (method_of c) args (w_chain w)) as [[t|e] st];
          [destruct (wait backend t st) as [[[]|e] st']|];
          cbn [snd after w_trace]; intros E; apply app_cons_neq in E;
          contradiction.
      * intros _. exists amount, e. split; [reflexivity|exact Ep].
    + destruct (args_of_no_amount c Ea) as [args Hargs].
      rewrite Hargs, submit_spec.
      destruct (call_tx backend (method_of c) args (w_chain w)) as [[t|e] st];
        [destruct (wait backend t st) as [[[]|e] st']|];
        cbn [snd after w_trace]; intros E; apply app_cons_neq in E;
        contradiction.
  - intros (amount & e & Ea & Ep).
    pose proof (args_of_amount c amount Ea) as Ha. rewrite Ep in Ha.
    rewrite Ha. reflexivity.
Qed.

Lemma nothing_sent_only_for_a_bad_amount_witness :
  w_trace (snd (addLiquidity Mock.echo "0xDA1" "ten" (Finite 1700000000) Mock.w0))
  = w_trace Mock.w0
  /\ w_trace (snd (acceptOwnership Mock.down Mock.w0)) <> w_trace Mock.w0.
Proof.
  split.
  - apply (proj2 (nothing_sent_only_for_a_bad_amount Mock.echo
                    (AddLiquidity "0xDA1" "ten" (Finite 1700000000)) Mock.w0)).
    exists "ten"%string, invalid_value. split; reflexivity.
  - intros E.
    apply (proj1 (nothing_sent_only_for_a_bad_amount Mock.down
                    AcceptOwnership Mock.w0)) in E.
    destruct E as (amount & e & Ea & _). discriminate Ea.
Defined.

(** X15.  [getLiquidityPool] makes one call, [liquidityPool(user,
    token)], and nothing else.  A fault of the call rejects it with that
    fault; a position of [uint256] fields always resolves it, the
    conversions cannot fail. *)
Theorem getLiquidityPool_one_call
    {chain tx filter log : Type} (backend : Backend chain tx filter log)
    (user token : string) (w : @world chain tx filter) :
  let req := ReqCall "liquidityPool" [AStr user; AStr token] in
  let read :=
    call_pool backend "liquidityPool" [AStr user; AStr token] (w_chain w) in
  (forall e st, read = (Throw e, st) ->
     getLiquidityPool backend user token w
     = (Throw e, after w st [(req, Some e)]))
  /\ (forall p st, read = (Normal p, st) ->
        uint256 (p_amount p) -> uint256 (p_withdrawalTime p) ->
        uint256 (p_addedAt p) ->
        exists r,
          getLiquidityPool backend user token w
          = (Normal r, after w st [(req, None)])).
Proof.
  cbv zeta. unfold getLiquidityPool, bind, perform, eval, ret, after. split.
  - intros e st ->. reflexivity.
  - intros p st -> Ha Hw Hd.
    destruct (parse_format (p_amount p) 18 ltac:(lia)
                (uint256_in_range _ Ha)) as (s & Hs & _).
    rewrite Hs.
    rewrite (Number_formatUnits0_spec _ (uint256_in_range _ Hw)).
    rewrite (Number_formatUnits0_spec _ (uint256_in_range _ Hd)).
    eexists. reflexivity.
Qed.

Lemma getLiquidityPool_one_call_witness :
  getLiquidityPool Mock.down "0xA11CE" "0xDA1" Mock.w0
  = (Throw (mkExn "NETWORK_ERROR" "could not detect network"),
     after Mock.w0 tt
       [(ReqCall "liquidityPool" [AStr "0xA11CE"; AStr "0xDA1"],
         Some (mkExn "NETWORK_ERROR" "could not detect network"))])
  /\ exists r,
       getLiquidityPool Mock.echo "0xA11CE" "0xDA1" Mock.w0
       = (Normal r,
          after Mock.w0 tt
            [(ReqCall "liquidityPool" [AStr "0xA11CE"; AStr "0xDA1"], None)]).
Proof.
  split.
  - apply (proj1 (getLiquidityPool_one_call Mock.down "0xA11CE" "0xDA1" Mock.w0)
             (mkExn "NETWORK_ERROR" "could not detect network") tt eq_refl).
  - apply (proj2 (getLiquidityPool_one_call Mock.echo "0xA11CE" "0xDA1" Mock.w0)
             (mkPool 5000000000000000000 1000 2000) tt eq_refl);
      unfold uint256; cbn; lia.
Defined.

End CallsSpec.
